(** * Markdown renderer and model selector: a shallow embedding

    The two components of
    [frontend/src/components/file-renderers/markdown-renderer.tsx] are
    embedded as Rocq functions: the Unicode escape normalizer, the [code]
    and [img] element renderers of the Markdown pipeline, and the model
    selector's catalog merge, event handlers and sort comparator.

    JavaScript strings are sequences of UTF-16 code units; handlers of the
    React component read the values captured at render time and issue state
    updates and calls on collaborators, which are recorded in order. *)

From Stdlib Require Import List ZArith Bool String Ascii Lia.
From Stdlib Require Import DecimalString DecimalNat.
Import ListNotations.

Local Open Scope Z_scope.

(** ** JavaScript strings *)

Module JS.

(** A string is the list of its UTF-16 code units, each in [0, 65535]. *)
Definition jsstring := list Z.

Definition code_of_ascii (a : ascii) : Z := Z.of_N (N_of_ascii a).

(** The string of an ASCII literal. *)
Definition js (s : string) : jsstring :=
  List.map code_of_ascii (list_ascii_of_string s).

Fixpoint eqb (a b : jsstring) : bool :=
  match a, b with
  | [], [] => true
  | x :: a', y :: b' => (x =? y) && eqb a' b'
  | _, _ => false
  end.

(** Truthiness of a string: only the empty string is falsy. *)
Definition truthy (s : jsstring) : bool :=
  match s with [] => false | _ :: _ => true end.

(** [a || b] on strings. *)
Definition or_else (a b : jsstring) : jsstring :=
  if truthy a then a else b.

(** [String.prototype.startsWith]. *)
Fixpoint startsWith (s p : jsstring) {struct p} : bool :=
  match p, s with
  | [], _ => true
  | y :: p', x :: s' => (x =? y) && startsWith s' p'
  | _ :: _, [] => false
  end.

(** [String.fromCharCode] of one number: ToUint16 of its argument. *)
Definition fromCharCode (n : Z) : Z := n mod 65536.

(** Value of a hexadecimal digit, [None] for any other code unit. *)
Definition hexval (c : Z) : option Z :=
  if (48 <=? c) && (c <=? 57) then Some (c - 48)
  else if (65 <=? c) && (c <=? 70) then Some (c - 55)
  else if (97 <=? c) && (c <=? 102) then Some (c - 87)
  else None.

(** [parseInt(s, 16)] on a string made of four hexadecimal digits. *)
Definition parseHex4 (a b c d : Z) : option Z :=
  match hexval a, hexval b, hexval c, hexval d with
  | Some va, Some vb, Some vc, Some vd =>
      Some (((va * 16 + vb) * 16 + vc) * 16 + vd)
  | _, _, _, _ => None
  end.

Definition BACKSLASH : Z := 92.
Definition LOWER_U : Z := 117.

End JS.

Import JS.

(** ** Content normalizer *)

(** [content.replace(/\\u([0-9a-fA-F]{4})/g, ...)]: a left to right scan;
    where a backslash, [u] and four hexadecimal digits stand, they are
    replaced by the code unit they denote and the scan goes on after them;
    any other code unit is copied. *)
Fixpoint replaceBmp (s : jsstring) : jsstring :=
  match s with
  | [] => []
  | c0 :: tl =>
      match tl with
      | c1 :: a :: b :: c :: d :: rest =>
          if (c0 =? BACKSLASH) && (c1 =? LOWER_U) then
            match parseHex4 a b c d with
            | Some n => fromCharCode n :: replaceBmp rest
            | None => c0 :: replaceBmp tl
            end
          else c0 :: replaceBmp tl
      | _ => c0 :: replaceBmp tl
      end
  end.

(** [bmpProcessed.replace(/\\u([0-9a-fA-F]{8})/g, ...)]: the same scan for
    a backslash, [u] and eight hexadecimal digits, replaced by the two code
    units of the first four and of the last four digits. *)
Fixpoint replaceSupplementary (s : jsstring) : jsstring :=
  match s with
  | [] => []
  | c0 :: tl =>
      match tl with
      | c1 :: a :: b :: c :: d :: e :: f :: g :: h :: rest =>
          if (c0 =? BACKSLASH) && (c1 =? LOWER_U) then
            match parseHex4 a b c d, parseHex4 e f g h with
            | Some highSurrogate, Some lowSurrogate =>
                fromCharCode highSurrogate :: fromCharCode lowSurrogate
                  :: replaceSupplementary rest
            | _, _ => c0 :: replaceSupplementary tl
            end
          else c0 :: replaceSupplementary tl
      | _ => c0 :: replaceSupplementary tl
      end
  end.

Definition processUnicodeContent (content : jsstring) : jsstring :=
  if negb (truthy content) then []
  else
    let bmpProcessed := replaceBmp content in
    replaceSupplementary bmpProcessed.

(** ** Fenced code nodes *)

(** [\w] of a regular expression without the [u] and [i] flags:
    [A-Za-z0-9_]. *)
Definition wordchar (c : Z) : bool :=
  ((48 <=? c) && (c <=? 57)) || ((65 <=? c) && (c <=? 90))
  || ((97 <=? c) && (c <=? 122)) || (c =? 95).

(** The longest prefix of [s] whose code units satisfy [p]: a greedy [p+]
    or [p*] with nothing after it in the pattern. *)
Fixpoint takeWhile (p : Z -> bool) (s : jsstring) : jsstring :=
  match s with
  | [] => []
  | c :: tl => if p c then c :: takeWhile p tl else []
  end.

Fixpoint dropWhile (p : Z -> bool) (s : jsstring) : jsstring :=
  match s with
  | [] => []
  | c :: tl => if p c then dropWhile p tl else s
  end.

Definition LANGUAGE_PREFIX : jsstring := js "language-".

(** [/language-(\w+)/.exec(s)], reduced to its capture group [match[1]]:
    the leftmost place where [language-] is followed by a word character,
    and the longest run of word characters there. *)
Fixpoint execLanguage (s : jsstring) : option jsstring :=
  match s with
  | [] => None
  | _ :: tl =>
      if startsWith s LANGUAGE_PREFIX then
        let word := takeWhile wordchar (skipn (List.length LANGUAGE_PREFIX) s) in
        if truthy word then Some word else execLanguage tl
      else execLanguage tl
  end.

(** The [children] of a node, as far as [String(children)] tells them apart
    (numbers are left out: the Markdown parser gives code nodes text). *)
#[warnings="-register-all"]
Inductive ReactNode : Type :=
| RText (s : jsstring)
| RNull
| RUndefined
| RBool (b : bool)
| RElement
| RArray (items : list ReactNode).

(** [String(children)]; an array is its items joined by commas, [null] and
    [undefined] items giving the empty string. *)
Fixpoint String_ (n : ReactNode) : jsstring :=
  match n with
  | RText s => s
  | RNull => js "null"
  | RUndefined => js "undefined"
  | RBool true => js "true"
  | RBool false => js "false"
  | RElement => js "[object Object]"
  | RArray items =>
      let item (x : ReactNode) : jsstring :=
        match x with
        | RNull | RUndefined => []
        | _ => String_ x
        end in
      (fix join (l : list ReactNode) : jsstring :=
         match l with
         | [] => []
         | [x] => item x
         | x :: l' => item x ++ js "," ++ join l'
         end) items
  end.

Definition NEWLINE : Z := 10.

(** [s.replace(/\n$/, '')]: without the [m] flag [$] is the end of the
    string, so only a newline that is the last code unit is removed. *)
Fixpoint stripTrailingNewline (s : jsstring) : jsstring :=
  match s with
  | [] => []
  | c :: tl =>
      match tl with
      | [] => if c =? NEWLINE then [] else [c]
      | _ :: _ => c :: stripTrailingNewline tl
      end
  end.

(** What the [code] component returns. *)
Inductive CodeElement : Type :=
| InlineCode (className : option jsstring) (children : ReactNode)
| CodeRenderer (content language : jsstring).

Definition code (className : option jsstring) (children : ReactNode)
  : CodeElement :=
  let cls := match className with Some c => c | None => [] end in
  let match_ := execLanguage cls in
  let isInline :=
    negb (truthy cls)
    || match match_ with Some _ => false | None => true end in
  if isInline then InlineCode className children
  else
    CodeRenderer (stripTrailingNewline (String_ children))
                 (match match_ with Some w => w | None => [] end).

(** ** Numbers read from strings *)

(** The value [Number(s)] of a string.  [Finite neg m e], with [0 <= m],
    stands for the Number value nearest to [m * 10^e], negated when [neg]
    holds: the value StringToNumber rounds its literal to.  That rounding
    is the identity on integers below [2^53]. *)
Inductive number : Type :=
| NaN
| Infinity (neg : bool)
| Finite (neg : bool) (m : Z) (e : Z).

Definition isNaN (v : number) : bool :=
  match v with NaN => true | _ => false end.

(** [v > 0].  A positive literal rounds to zero exactly when its value is
    at most [2^-1075], half the least positive Number value. *)
Definition gt0 (v : number) : bool :=
  match v with
  | NaN => false
  | Infinity neg => negb neg
  | Finite neg m e =>
      negb neg
      && (if 0 <=? e then 0 <? m else 10 ^ (- e) <? m * 2 ^ 1075)
  end.

(** WhiteSpace and LineTerminator code units, which [trim] and [Number]
    strip: TAB, LF, VT, FF, CR, SP, NBSP, the space separators, LS, PS and
    the byte order mark. *)
Definition whitespace (c : Z) : bool :=
  ((9 <=? c) && (c <=? 13)) || (c =? 32) || (c =? 160) || (c =? 5760)
  || ((8192 <=? c) && (c <=? 8202)) || (c =? 8232) || (c =? 8233)
  || (c =? 8239) || (c =? 8287) || (c =? 12288) || (c =? 65279).

(** [String.prototype.trim]. *)
Definition trim (s : jsstring) : jsstring :=
  rev (dropWhile whitespace (rev (dropWhile whitespace s))).

Definition digit (c : Z) : bool := (48 <=? c) && (c <=? 57).

(** Value of a digit in [radix], [None] when it is not one. *)
Definition digitval (radix c : Z) : option Z :=
  match hexval c with
  | Some v => if v <? radix then Some v else None
  | None => None
  end.

(** Value of a string of digits in [radix] read after [acc]; [None] when a
    code unit is not a digit. *)
Fixpoint digits (radix : Z) (acc : Z) (s : jsstring) : option Z :=
  match s with
  | [] => Some acc
  | c :: tl =>
      match digitval radix c with
      | Some v => digits radix (acc * radix + v) tl
      | None => None
      end
  end.

Definition nonempty_digits (radix : Z) (s : jsstring) : option Z :=
  if truthy s then digits radix 0 s else None.

(** ExponentPart, or nothing, up to the end of the string. *)
Definition exponent (s : jsstring) : option Z :=
  match s with
  | [] => Some 0
  | c :: tl =>
      if (c =? 101) || (c =? 69) then
        match tl with
        | 43 :: ds => nonempty_digits 10 ds
        | 45 :: ds => option_map Z.opp (nonempty_digits 10 ds)
        | _ => nonempty_digits 10 tl
        end
      else None
  end.

(** StrUnsignedDecimalLiteral other than [Infinity]: digits, an optional
    point and digits, an optional exponent, with a digit on one side of the
    point at least. *)
Definition unsignedDecimal (neg : bool) (s : jsstring) : number :=
  let ip := takeWhile digit s in
  let r1 := dropWhile digit s in
  let '(fp, r2) :=
    match r1 with
    | 46 :: r => (takeWhile digit r, dropWhile digit r)
    | _ => ([], r1)
    end in
  if truthy ip || truthy fp then
    match digits 10 0 (ip ++ fp), exponent r2 with
    | Some m, Some e => Finite neg m (e - Z.of_nat (List.length fp))
    | _, _ => NaN
    end
  else NaN.

Definition INFINITY : jsstring := js "Infinity".

Definition decimalLiteral (s : jsstring) : number :=
  let '(neg, body) :=
    match s with
    | 43 :: r => (false, r)
    | 45 :: r => (true, r)
    | _ => (false, s)
    end in
  if eqb body INFINITY then Infinity neg else unsignedDecimal neg body.

Definition nonDecimal (radix : Z) (ds : jsstring) : number :=
  match nonempty_digits radix ds with
  | Some m => Finite false m 0
  | None => NaN
  end.

(** [Number(s)] on a string (StringToNumber): surrounding white space is
    dropped, the empty string is [+0], then a binary, octal or hexadecimal
    integer or a signed decimal literal is read; anything else is [NaN]. *)
Definition Number (s : jsstring) : number :=
  let t := trim s in
  match t with
  | [] => Finite false 0 0
  | 48 :: p :: ds =>
      if (p =? 120) || (p =? 88) then nonDecimal 16 ds
      else if (p =? 111) || (p =? 79) then nonDecimal 8 ds
      else if (p =? 98) || (p =? 66) then nonDecimal 2 ds
      else decimalLiteral t
  | _ => decimalLiteral t
  end.

(** ** Image nodes *)

(** [s.split(sep)] for a separator of one code unit: the pieces between
    its occurrences, one piece at least. *)
Fixpoint split (sep : Z) (s : jsstring) : list jsstring :=
  match s with
  | [] => [[]]
  | c :: tl =>
      if c =? sep then [] :: split sep tl
      else
        match split sep tl with
        | piece :: pieces => (c :: piece) :: pieces
        | [] => [[c]]
        end
  end.

Definition HASH : Z := 35.
Definition LOWER_X : Z := 120.

(** What the [img] component returns: the plain [<img>] element or the
    [Image] component of the framework. *)
Inductive ImgElement : Type :=
| PlainImg (src alt : jsstring)
| ManagedImage (src alt : jsstring) (width height : number).

Definition DEFAULT_WIDTH : number := Finite false 500 0.
Definition DEFAULT_HEIGHT : number := Finite false 300 0.
Definition DEFAULT_ALT : jsstring := js "markdown image".

(** The [(width, height, hasDimensions)] the component settles on. *)
Definition imgDimensions (src : jsstring) : number * number * bool :=
  let srcParts := split HASH src in
  let hash := nth_error srcParts 1 in
  match hash with
  | Some h =>
      if truthy h then
        let dimensions := List.map Number (split LOWER_X h) in
        match dimensions with
        | [d0; d1] =>
            if negb (isNaN d0) && negb (isNaN d1) && gt0 d0 && gt0 d1
            then (d0, d1, true)
            else (DEFAULT_WIDTH, DEFAULT_HEIGHT, false)
        | _ => (DEFAULT_WIDTH, DEFAULT_HEIGHT, false)
        end
      else (DEFAULT_WIDTH, DEFAULT_HEIGHT, false)
  | None => (DEFAULT_WIDTH, DEFAULT_HEIGHT, false)
  end.

Definition img (src : jsstring) (alt : option jsstring) : ImgElement :=
  let srcParts := split HASH src in
  let url := nth 0 srcParts [] in
  let '(width, height, _) := imgDimensions src in
  let alt' := or_else (match alt with Some a => a | None => [] end)
                      DEFAULT_ALT in
  if startsWith url (js "data:") || startsWith url (js "blob:")
  then PlainImg url alt'
  else ManagedImage url alt' width height.

(** ** Model selector: data *)

(** A descriptor of the catalog.  Of the fields of the imported
    [ModelOption] type these are the ones the component reads or writes; an
    absent [top] or [isCustom] reads as [false], as the component reads
    them ([opt.isCustom || false]). *)
Module ModelOption.
Record t : Type := mk {
  id : jsstring;
  label : jsstring;
  requiresSubscription : bool;
  top : bool;
  isCustom : bool
}.
End ModelOption.

(** A record of the persisted custom-model catalog. *)
Module CustomModel.
Record t : Type := mk {
  id : jsstring;
  label : jsstring;
  apiKey : jsstring;
  apiBase : jsstring
}.
End CustomModel.

(** What the custom-model dialog hands to [onSave]. *)
Module CustomModelFormData.
Record t : Type := mk {
  id : jsstring;
  label : jsstring;
  apiKey : jsstring;
  apiBase : jsstring
}.
Definition empty : t := mk [] [] [] [].
End CustomModelFormData.

Inductive DialogMode : Type := add | edit.

(** [a === b] where [b] may be [null]. *)
Definition eqb_nullable (a : jsstring) (b : option jsstring) : bool :=
  match b with
  | Some b' => eqb a b'
  | None => false
  end.

(** *** A [Map] keyed by strings

    A JavaScript [Map] iterates in insertion order, and [set] on a key that
    is present keeps the key's place: an association list. *)
Module JsMap.
Section JsMap.
Context {V : Type}.

Definition t := list (jsstring * V).

Definition empty : t := [].

Fixpoint get (k : jsstring) (m : t) : option V :=
  match m with
  | [] => None
  | (k', v) :: m' => if eqb k' k then Some v else get k m'
  end.

Definition has (k : jsstring) (m : t) : bool :=
  match get k m with Some _ => true | None => false end.

Fixpoint set (k : jsstring) (v : V) (m : t) : t :=
  match m with
  | [] => [(k, v)]
  | (k', v') :: m' =>
      if eqb k' k then (k', v) :: m' else (k', v') :: set k v m'
  end.

Definition values (m : t) : list V := List.map snd m.
Definition keys (m : t) : list jsstring := List.map fst m.

End JsMap.
Arguments t : clear implicits.
End JsMap.

(** ** Model selector: the merged catalog *)

Section Catalog.

(** [formatModelName], imported from the model-selection hook: the label
    made up for an id that comes without one. *)
Variable formatModelName : jsstring -> jsstring.

(** The descriptor a custom model is turned into. *)
Definition modelToSet (model : CustomModel.t) : ModelOption.t :=
  ModelOption.mk
    (CustomModel.id model)
    (or_else (CustomModel.label model)
             (formatModelName (CustomModel.id model)))
    false
    false
    true.

(** First [forEach]: every standard model enters the map, not custom. *)
Definition addStandard (modelMap : JsMap.t ModelOption.t)
           (model : ModelOption.t) : JsMap.t ModelOption.t :=
  JsMap.set (ModelOption.id model)
    (ModelOption.mk (ModelOption.id model) (ModelOption.label model)
       (ModelOption.requiresSubscription model) (ModelOption.top model)
       false)
    modelMap.

(** Second [forEach]: a custom model enters the map, or overrides the label
    and custom flag of the entry that has its id. *)
Definition addCustom (modelMap : JsMap.t ModelOption.t)
           (model : CustomModel.t) : JsMap.t ModelOption.t :=
  let toSet := modelToSet model in
  match JsMap.get (CustomModel.id model) modelMap with
  | None => JsMap.set (CustomModel.id model) toSet modelMap
  | Some existingModel =>
      JsMap.set (CustomModel.id model)
        (ModelOption.mk (ModelOption.id existingModel)
           (ModelOption.label toSet)
           (ModelOption.requiresSubscription existingModel)
           (ModelOption.top existingModel)
           true)
        modelMap
  end.

Definition modelMap (modelOptions : list ModelOption.t)
           (customModels : list CustomModel.t) : JsMap.t ModelOption.t :=
  fold_left addCustom customModels
    (fold_left addStandard modelOptions JsMap.empty).

Definition enhancedModelOptions (modelOptions : list ModelOption.t)
           (customModels : list CustomModel.t) : list ModelOption.t :=
  JsMap.values (modelMap modelOptions customModels).

End Catalog.

(** ** Model selector: state, effects and handlers *)

(** The state the component keeps with [useState]. *)
Record State : Type := mkState {
  paywallOpen : bool;
  lockedModel : option jsstring;
  isOpen : bool;
  searchQuery : jsstring;
  highlightedIndex : Z;
  customModels : list CustomModel.t;
  isCustomModelDialogOpen : bool;
  dialogInitialData : CustomModelFormData.t;
  dialogMode : DialogMode;
  editingModelId : option jsstring
}.

(** The props.  [refreshCustomModels] tells whether the optional callback
    was passed. *)
Record Props : Type := mkProps {
  selectedModel : jsstring;
  modelOptions : list ModelOption.t;
  canAccessModel : jsstring -> bool;
  subscriptionStatus : jsstring;
  refreshCustomModels : bool
}.

(** Callbacks handed to [setTimeout]. *)
Inductive Deferred : Type :=
| ResetHighlightedIndex
| RestoreBodyPointerEvents.

(** Calls a handler makes on its collaborators, in the order made. *)
Inductive Effect : Type :=
| OnModelChange (modelId : jsstring)
| CanAccessModel (modelId : jsstring)
| SaveCustomModels (models : list CustomModel.t)
| RefreshCustomModels
| LocalStorageSetItem (key value : jsstring)
| ConsoleError (message : jsstring)
| ConsoleWarn (message : jsstring)
| SetTimeout (callback : Deferred) (ms : Z)
| BodyClassListRemove (className : jsstring)
| StopPropagation
| PreventDefault.

(** A handler runs on the pending state and returns the state after its
    updates with the calls it made.  What it reads of props and state are
    the values of the render that created it, passed to it apart. *)
Definition Handler (A : Type) : Type := State -> A * State * list Effect.

Definition ret {A : Type} (a : A) : Handler A := fun s => (a, s, []).

Definition bind {A B : Type} (m : Handler A) (k : A -> Handler B)
  : Handler B :=
  fun s =>
    let '(a, s1, t1) := m s in
    let '(b, s2, t2) := k a s1 in
    (b, s2, t1 ++ t2).

Declare Scope handler_scope.
Delimit Scope handler_scope with handler.
Notation "x <- m ;; k" := (bind m (fun x => k))
  (at level 61, m at next level, right associativity) : handler_scope.
Notation "m ;; k" := (bind m (fun _ => k))
  (at level 61, right associativity) : handler_scope.
Local Open Scope handler_scope.

Definition emit (e : Effect) : Handler unit := fun s => (tt, s, [e]).

Definition skip : Handler unit := ret tt.

Definition when (b : bool) (m : Handler unit) : Handler unit :=
  if b then m else skip.

(** State and trace a handler leaves when started in [s]. *)
Definition exec {A : Type} (m : Handler A) (s : State)
  : State * list Effect :=
  let '(_, s', t) := m s in (s', t).

Definition setPaywallOpen (v : bool) : Handler unit := fun s =>
  (tt, mkState v (lockedModel s) (isOpen s) (searchQuery s)
         (highlightedIndex s) (customModels s) (isCustomModelDialogOpen s)
         (dialogInitialData s) (dialogMode s) (editingModelId s), []).

Definition setLockedModel (v : option jsstring) : Handler unit := fun s =>
  (tt, mkState (paywallOpen s) v (isOpen s) (searchQuery s)
         (highlightedIndex s) (customModels s) (isCustomModelDialogOpen s)
         (dialogInitialData s) (dialogMode s) (editingModelId s), []).

Definition setIsOpen (v : bool) : Handler unit := fun s =>
  (tt, mkState (paywallOpen s) (lockedModel s) v (searchQuery s)
         (highlightedIndex s) (customModels s) (isCustomModelDialogOpen s)
         (dialogInitialData s) (dialogMode s) (editingModelId s), []).

(** [setHighlightedIndex(prev => f(prev))]: the updater sees the pending
    value. *)
Definition setHighlightedIndex (f : Z -> Z) : Handler unit := fun s =>
  (tt, mkState (paywallOpen s) (lockedModel s) (isOpen s) (searchQuery s)
         (f (highlightedIndex s)) (customModels s)
         (isCustomModelDialogOpen s) (dialogInitialData s) (dialogMode s)
         (editingModelId s), []).

Definition setCustomModels (v : list CustomModel.t) : Handler unit :=
  fun s =>
  (tt, mkState (paywallOpen s) (lockedModel s) (isOpen s) (searchQuery s)
         (highlightedIndex s) v (isCustomModelDialogOpen s)
         (dialogInitialData s) (dialogMode s) (editingModelId s), []).

Definition setIsCustomModelDialogOpen (v : bool) : Handler unit := fun s =>
  (tt, mkState (paywallOpen s) (lockedModel s) (isOpen s) (searchQuery s)
         (highlightedIndex s) (customModels s) v (dialogInitialData s)
         (dialogMode s) (editingModelId s), []).

Definition setDialogInitialData (v : CustomModelFormData.t)
  : Handler unit := fun s =>
  (tt, mkState (paywallOpen s) (lockedModel s) (isOpen s) (searchQuery s)
         (highlightedIndex s) (customModels s) (isCustomModelDialogOpen s)
         v (dialogMode s) (editingModelId s), []).

Definition setEditingModelId (v : option jsstring) : Handler unit :=
  fun s =>
  (tt, mkState (paywallOpen s) (lockedModel s) (isOpen s) (searchQuery s)
         (highlightedIndex s) (customModels s) (isCustomModelDialogOpen s)
         (dialogInitialData s) (dialogMode s) v, []).

(** [s.includes(sub)]. *)
Fixpoint includes (s sub : jsstring) : bool :=
  startsWith s sub
  || match s with
     | [] => false
     | _ :: tl => includes tl sub
     end.

(** [s.replace(pat, '')] with a string [pat]: the first occurrence of
    [pat] is removed. *)
Fixpoint removeFirst (s pat : jsstring) : jsstring :=
  if startsWith s pat then skipn (List.length pat) s
  else
    match s with
    | [] => []
    | c :: tl => c :: removeFirst tl pat
    end.

Definition OPENROUTER_PREFIX : jsstring := js "openrouter/".
Definition DUPLICATE_MESSAGE : jsstring :=
  js "A model with this ID already exists".
Definition SELECTED_WARNING : jsstring :=
  js "Failed to save selected model to localStorage:".
Definition DEFAULT_WARNING : jsstring :=
  js "Failed to save default model selection to localStorage:".

Section Selector.

(** Imported from the model-selection hook. *)
Variable formatModelName : jsstring -> jsstring.
Variable STORAGE_KEY_MODEL : jsstring.
Variable DEFAULT_FREE_MODEL_ID : jsstring.
Variable DEFAULT_PREMIUM_MODEL_ID : jsstring.
(** Truthiness of [MODELS[id]?.recommended]. *)
Variable recommended : jsstring -> bool.

(** Of the host: [String.prototype.toLowerCase], which follows the Unicode
    case tables; [String.prototype.localeCompare], which follows the
    collation of the host's locale; and whether a [localStorage.setItem]
    throws (storage full or unavailable). *)
Variable toLowerCase : jsstring -> jsstring.
Variable localeCompare : jsstring -> jsstring -> Z.
Variable setItemThrows : jsstring -> jsstring -> bool.

(** The render whose values the handlers close over. *)
Variable props : Props.
Variable state : State.

Definition enhanced : list ModelOption.t :=
  enhancedModelOptions formatModelName (modelOptions props)
                       (customModels state).

Definition matchesQuery (opt : ModelOption.t) : bool :=
  includes (toLowerCase (ModelOption.label opt))
           (toLowerCase (searchQuery state))
  || includes (toLowerCase (ModelOption.id opt))
              (toLowerCase (searchQuery state)).

Definition filteredOptions : list ModelOption.t :=
  filter matchesQuery enhanced.

(** [try { localStorage.setItem(key, value) } catch { console.warn }]. *)
Definition trySetItem (key value warning : jsstring) : Handler unit :=
  emit (LocalStorageSetItem key value) ;;
  when (setItemThrows key value) (emit (ConsoleWarn warning)).

Definition callCanAccessModel (modelId : jsstring) : Handler bool :=
  emit (CanAccessModel modelId) ;;
  ret (canAccessModel props modelId).

Definition handleSelect (id : jsstring) : Handler unit :=
  let selectedOption :=
    find (fun opt => eqb (ModelOption.id opt) id) enhanced in
  let isCustomModel :=
    match selectedOption with
    | Some opt => ModelOption.isCustom opt
    | None => false
    end in
  if isCustomModel then
    emit (OnModelChange id) ;;
    setIsOpen false
  else
    ok <- callCanAccessModel id ;;
    if ok then
      emit (OnModelChange id) ;;
      setIsOpen false
    else
      setLockedModel (Some id) ;;
      setPaywallOpen true.

Definition closeDialog : Handler unit :=
  setPaywallOpen false ;;
  setLockedModel None.

Definition handleSearchInputKeyDown (key : jsstring) : Handler unit :=
  let len := Z.of_nat (List.length filteredOptions) in
  emit StopPropagation ;;
  if eqb key (js "ArrowDown") then
    emit PreventDefault ;;
    setHighlightedIndex (fun prev => if prev <? len - 1 then prev + 1 else 0)
  else if eqb key (js "ArrowUp") then
    emit PreventDefault ;;
    setHighlightedIndex (fun prev => if 0 <? prev then prev - 1 else len - 1)
  else if eqb key (js "Enter") && (0 <=? highlightedIndex state) then
    emit PreventDefault ;;
    match nth_error filteredOptions (Z.to_nat (highlightedIndex state)) with
    | Some selectedOption => handleSelect (ModelOption.id selectedOption)
    | None => skip
    end
  else skip.

Definition closeCustomModelDialog : Handler unit :=
  setIsCustomModelDialogOpen false ;;
  setDialogInitialData CustomModelFormData.empty ;;
  setEditingModelId None ;;
  emit (BodyClassListRemove (js "overflow-hidden")) ;;
  emit (SetTimeout RestoreBodyPointerEvents 150).

(** [m.id === modelId && (dialogMode === 'add' || m.id !== editingModelId)] *)
Definition isDuplicate (modelId : jsstring) (m : CustomModel.t) : bool :=
  eqb (CustomModel.id m) modelId
  && (match dialogMode state with add => true | edit => false end
      || negb (eqb_nullable (CustomModel.id m) (editingModelId state))).

Definition saveModelId (formData : CustomModelFormData.t) : jsstring :=
  trim (CustomModelFormData.id formData).

Definition saveDisplayId (formData : CustomModelFormData.t) : jsstring :=
  let modelId := saveModelId formData in
  if startsWith modelId OPENROUTER_PREFIX
  then removeFirst modelId OPENROUTER_PREFIX
  else modelId.

Definition saveModelLabel (formData : CustomModelFormData.t) : jsstring :=
  or_else (trim (CustomModelFormData.label formData))
          (formatModelName (saveDisplayId formData)).

Definition newModel (formData : CustomModelFormData.t) : CustomModel.t :=
  CustomModel.mk (saveModelId formData) (saveModelLabel formData)
                 (CustomModelFormData.apiKey formData)
                 (CustomModelFormData.apiBase formData).

Definition updatedModels (formData : CustomModelFormData.t)
  : list CustomModel.t :=
  match dialogMode state with
  | add => customModels state ++ [newModel formData]
  | edit =>
      List.map
        (fun m =>
           if eqb_nullable (CustomModel.id m) (editingModelId state)
           then newModel formData else m)
        (customModels state)
  end.

Definition handleSaveCustomModel (formData : CustomModelFormData.t)
  : Handler unit :=
  let modelId := saveModelId formData in
  if negb (truthy modelId) then skip
  else if existsb (isDuplicate modelId) (customModels state) then
    emit (ConsoleError DUPLICATE_MESSAGE)
  else
    setCustomModels (updatedModels formData) ;;
    emit (SaveCustomModels (updatedModels formData)) ;;
    when (refreshCustomModels props) (emit RefreshCustomModels) ;;
    closeCustomModelDialog ;;
    match dialogMode state with
    | add =>
        emit (OnModelChange modelId) ;;
        trySetItem STORAGE_KEY_MODEL modelId SELECTED_WARNING
    | edit =>
        when (eqb_nullable (selectedModel props) (editingModelId state))
          (emit (OnModelChange modelId) ;;
           trySetItem STORAGE_KEY_MODEL modelId SELECTED_WARNING)
    end ;;
    setIsOpen false ;;
    emit (SetTimeout ResetHighlightedIndex 0).

(** [e] tells whether the optional event was passed. *)
Definition handleDeleteCustomModel (modelId : jsstring) (e : bool)
  : Handler unit :=
  when e (emit StopPropagation ;; emit PreventDefault) ;;
  let updatedCustomModels :=
    filter (fun m => negb (eqb (CustomModel.id m) modelId))
           (customModels state) in
  setCustomModels updatedCustomModels ;;
  emit (SaveCustomModels updatedCustomModels) ;;
  when (refreshCustomModels props) (emit RefreshCustomModels) ;;
  when (eqb (selectedModel props) modelId)
    (let defaultModelId :=
       if eqb (subscriptionStatus props) (js "active")
       then DEFAULT_PREMIUM_MODEL_ID else DEFAULT_FREE_MODEL_ID in
     emit (OnModelChange defaultModelId) ;;
     trySetItem STORAGE_KEY_MODEL defaultModelId DEFAULT_WARNING) ;;
  setIsOpen false ;;
  emit (SetTimeout ResetHighlightedIndex 0).

(** The comparator of the sort of the "All Models" view. *)
Definition sortCompare (a b : ModelOption.t) : Z :=
  let aRecommendedPaid :=
    recommended (ModelOption.id a) && ModelOption.requiresSubscription a in
  let bRecommendedPaid :=
    recommended (ModelOption.id b) && ModelOption.requiresSubscription b in
  if aRecommendedPaid && negb bRecommendedPaid then -1
  else if negb aRecommendedPaid && bRecommendedPaid then 1
  else
    let aRecommended := recommended (ModelOption.id a) in
    let bRecommended := recommended (ModelOption.id b) in
    if aRecommended && negb bRecommended then -1
    else if negb aRecommended && bRecommended then 1
    else if ModelOption.requiresSubscription a
            && negb (ModelOption.requiresSubscription b) then -1
    else if negb (ModelOption.requiresSubscription a)
            && ModelOption.requiresSubscription b then 1
    else localeCompare (ModelOption.label a) (ModelOption.label b).

(** The entries the "All Models" view sorts: those of [uniqueModels] that
    match the query. *)
Definition allModelsEntries : list ModelOption.t :=
  filter matchesQuery filteredOptions.

End Selector.

(** ** Model selector: the rest of the component *)

Definition setSearchQuery (v : jsstring) : Handler unit := fun s =>
  (tt, mkState (paywallOpen s) (lockedModel s) (isOpen s) v
         (highlightedIndex s) (customModels s) (isCustomModelDialogOpen s)
         (dialogInitialData s) (dialogMode s) (editingModelId s), []).

Definition setDialogMode (v : DialogMode) : Handler unit := fun s =>
  (tt, mkState (paywallOpen s) (lockedModel s) (isOpen s) (searchQuery s)
         (highlightedIndex s) (customModels s) (isCustomModelDialogOpen s)
         (dialogInitialData s) v (editingModelId s), []).

(** [String(index)] for an array index: its decimal digits. *)
Definition decimal (n : nat) : jsstring :=
  js (NilEmpty.string_of_uint (Nat.to_uint n)).

Definition SELECT_MODEL : jsstring := js "Select model".
Definition SUBSCRIBE_TO_ACCESS : jsstring := js "Subscribe to access ".
Definition SUBSCRIBE_GENERIC : jsstring :=
  js "Subscribe to access premium models with enhanced capabilities".
Definition UNDEFINED : jsstring := js "undefined".
Definition TOOLTIP_SUBSCRIPTION : jsstring :=
  js "Requires subscription to access premium model".
Definition TOOLTIP_LOW_QUALITY : jsstring :=
  js "Not recommended for complex tasks".
Definition TOOLTIP_RECOMMENDED : jsstring :=
  js "Recommended for optimal performance".
Definition TOOLTIP_CUSTOM : jsstring := js "Custom model".

(** What [renderModelOption] shows of an entry: its label, whether it is
    highlighted ([bg-accent]) and dimmed ([opacity-70]), the warning,
    badge and crown icons, the edit and delete buttons, the check mark and
    the text of the tooltip, if any. *)
Record RenderedOption : Type := mkRendered {
  shownLabel : jsstring;
  highlighted : bool;
  dimmed : bool;
  warningIcon : bool;
  recommendedBadge : bool;
  crownIcon : bool;
  customActions : bool;
  checkMark : bool;
  tooltip : option jsstring
}.

(** Callbacks the effects hand to [setTimeout]. *)
Inductive EffectTimer : Type :=
| FocusSearchInput
| ReopenDropdown.

Section SelectorViews.

Variable formatModelName : jsstring -> jsstring.
(** Truthiness of [MODELS[id]?.lowQuality] and [MODELS[id]?.recommended]. *)
Variable lowQuality : jsstring -> bool.
Variable recommended : jsstring -> bool.
Variable toLowerCase : jsstring -> jsstring.
(** [isLocalMode()], of the configuration. *)
Variable isLocalMode : bool.
Variable props : Props.
Variable state : State.

Definition selectedLabel : jsstring :=
  or_else
    (match find (fun o => eqb (ModelOption.id o) (selectedModel props))
                (enhanced formatModelName props state) with
     | Some o => ModelOption.label o
     | None => []
     end)
    SELECT_MODEL.

Definition getFreeModels : list jsstring :=
  List.map ModelOption.id
    (filter (fun m => negb (ModelOption.requiresSubscription m))
            (modelOptions props)).

Definition sortedModels : list ModelOption.t :=
  filteredOptions formatModelName toLowerCase props state.

Definition getUniqueModelKey (model : ModelOption.t) (index : nat)
  : jsstring :=
  js "model-" ++ ModelOption.id model ++ js "-" ++ decimal index.

(** [list.map((m, index) => ({...m, uniqueKey: getUniqueModelKey(m, index)}))],
    the entries numbered from [start]. *)
Fixpoint withUniqueKeys (start : nat) (l : list ModelOption.t)
  : list (ModelOption.t * jsstring) :=
  match l with
  | [] => []
  | m :: l' =>
      (m, getUniqueModelKey m start) :: withUniqueKeys (S start) l'
  end.

Definition uniqueModels : list (ModelOption.t * jsstring) :=
  withUniqueKeys 0 sortedModels.

Definition getPremiumModels : list (ModelOption.t * jsstring) :=
  withUniqueKeys 0
    (filter (fun m => ModelOption.requiresSubscription m)
            (modelOptions props)).

Definition premiumModels : list ModelOption.t :=
  filter
    (fun m =>
       negb (existsb (fun id => includes (ModelOption.id m) id)
                     getFreeModels))
    sortedModels.

Definition shouldDisplayAll : bool :=
  (negb isLocalMode && eqb (subscriptionStatus props) (js "no_subscription"))
  && (0 <? Z.of_nat (List.length premiumModels)).

(** The entries under "Available Models" of the view without
    subscription, and the premium entries shown behind its overlay. *)
Definition availableModels : list (ModelOption.t * jsstring) :=
  filter (fun m => negb (ModelOption.requiresSubscription (fst m))
                   && matchesQuery toLowerCase state (fst m))
         uniqueModels.

Definition premiumPreview : list (ModelOption.t * jsstring) :=
  firstn 3
    (filter (fun m => ModelOption.requiresSubscription (fst m)
                      && matchesQuery toLowerCase state (fst m))
            getPremiumModels).

Definition renderModelOption (opt : ModelOption.t) (index : Z)
  : RenderedOption :=
  let isCustom := ModelOption.isCustom opt in
  let accessible :=
    if isCustom then true else canAccessModel props (ModelOption.id opt) in
  let isHighlighted := index =? highlightedIndex state in
  let isPremium := ModelOption.requiresSubscription opt in
  let isLowQuality := lowQuality (ModelOption.id opt) in
  let isRecommended := recommended (ModelOption.id opt) in
  mkRendered
    (ModelOption.label opt)
    isHighlighted
    (negb accessible)
    isLowQuality
    isRecommended
    (isPremium && negb accessible)
    isCustom
    (eqb (selectedModel props) (ModelOption.id opt))
    (if negb accessible then Some TOOLTIP_SUBSCRIPTION
     else if isLowQuality then Some TOOLTIP_LOW_QUALITY
     else if isRecommended then Some TOOLTIP_RECOMMENDED
     else if isCustom then Some TOOLTIP_CUSTOM
     else None).

(** The description of the paywall dialog, [None] while the dialog is not
    rendered; a label that is not found prints as [undefined]. *)
Definition paywallDescription : option jsstring :=
  if paywallOpen state then
    Some
      (match lockedModel state with
       | Some locked =>
           if truthy locked then
             SUBSCRIBE_TO_ACCESS
             ++ match find (fun m => eqb (ModelOption.id m) locked)
                           (modelOptions props) with
                | Some m => ModelOption.label m
                | None => UNDEFINED
                end
           else SUBSCRIBE_GENERIC
       | None => SUBSCRIBE_GENERIC
       end)
  else None.

(** [e] tells whether the optional event was passed. *)
Definition openAddCustomModelDialog (e : bool) : Handler unit :=
  when e (emit StopPropagation) ;;
  setDialogInitialData CustomModelFormData.empty ;;
  setDialogMode add ;;
  setIsCustomModelDialogOpen true ;;
  setIsOpen false.

Definition openEditCustomModelDialog (modelId : jsstring) (e : bool)
  : Handler unit :=
  when e (emit StopPropagation) ;;
  match find (fun m => eqb (CustomModel.id m) modelId)
             (customModels state) with
  | None => skip
  | Some modelToEdit =>
      setDialogInitialData
        (CustomModelFormData.mk
           (CustomModel.id modelToEdit)
           (CustomModel.label modelToEdit)
           (or_else (CustomModel.apiKey modelToEdit) [])
           (or_else (CustomModel.apiBase modelToEdit) [])) ;;
      setEditingModelId (Some (CustomModel.id modelToEdit)) ;;
      setDialogMode edit ;;
      setIsCustomModelDialogOpen true ;;
      setIsOpen false
  end.

(** The effect on [[isOpen]]: with the dropdown open and the search input
    mounted ([inputMounted]) the input is focused 50 ms later; otherwise
    query and highlight are reset. *)
Definition openEffect (inputMounted : bool) (s : State)
  : State * list (EffectTimer * Z) :=
  if isOpen state && inputMounted then (s, [(FocusSearchInput, 50)])
  else
    (fst (exec (setSearchQuery [] ;;
                setHighlightedIndex (fun _ => -1)) s), []).

(** The effect on [[customModels, modelOptions, isOpen]]: highlight and
    query are reset, and an open dropdown is closed, to be opened again
    10 ms later. *)
Definition refreshEffect (s : State) : State * list (EffectTimer * Z) :=
  (fst (exec (setHighlightedIndex (fun _ => -1) ;;
              setSearchQuery [] ;;
              when (isOpen state) (setIsOpen false)) s),
   if isOpen state then [(ReopenDropdown, 10)] else []).

End SelectorViews.

(** What a timer of the effects does to the state when it fires. *)
Definition fireEffectTimer (t : EffectTimer) (s : State) : State :=
  match t with
  | FocusSearchInput => s
  | ReopenDropdown => fst (exec (setIsOpen true) s)
  end.

(** ** Vocabulary of the statements *)

(** [cls] holds [language-] followed by the non-empty word [w]. *)
Definition matchesLanguage (cls w : jsstring) : Prop :=
  exists pre post,
    cls = pre ++ LANGUAGE_PREFIX ++ w ++ post
    /\ w <> [] /\ forallb wordchar w = true.

(** The text of an escape: a backslash, [u] and the digits [hex]. *)
Definition escape (hex : string) : jsstring :=
  BACKSLASH :: LOWER_U :: js hex.

(** [w] is the word [exec] is to capture in [cls]: it follows the
    leftmost [language-] that a word character follows, and it is the
    whole run of word characters there. *)
Definition leftmostLanguage (cls w : jsstring) : Prop :=
  exists pre post,
    cls = pre ++ LANGUAGE_PREFIX ++ w ++ post
    /\ w <> [] /\ forallb wordchar w = true
    /\ match post with [] => True | c :: _ => wordchar c = false end
    /\ forall pre' w' post',
         cls = pre' ++ LANGUAGE_PREFIX ++ w' ++ post' ->
         w' <> [] -> forallb wordchar w' = true ->
         (List.length pre <= List.length pre')%nat.

(** The code units a [url] is made of: all but [#]. *)
Definition notHash (c : Z) : bool := negb (c =? HASH).

(** [s] ends with a newline. *)
Definition endsWithNewline (s : jsstring) : Prop :=
  exists s', s = s' ++ [NEWLINE].

(** The elements of [l], each kept where it first occurs. *)
Fixpoint dedup (l : list jsstring) : list jsstring :=
  match l with
  | [] => []
  | x :: l' => x :: filter (fun y => negb (eqb y x)) (dedup l')
  end.

Definition mem (x : jsstring) (l : list jsstring) : bool :=
  existsb (eqb x) l.

(** The keys of a [Map] after [set] of key [k]: a new key goes last. *)
Definition addKey (ks : list jsstring) (k : jsstring) : list jsstring :=
  if mem k ks then ks else ks ++ [k].

(** Every value of the map is stored under its own id. *)
Definition keyedById (m : JsMap.t ModelOption.t) : Prop :=
  Forall (fun kv => ModelOption.id (snd kv) = fst kv) m.

(** The last standard model, and the last custom model, with a given id. *)
Definition lastStandard (i : jsstring) (l : list ModelOption.t)
  : option ModelOption.t :=
  find (fun m => eqb (ModelOption.id m) i) (rev l).

Definition lastCustom (i : jsstring) (l : list CustomModel.t)
  : option CustomModel.t :=
  find (fun m => eqb (CustomModel.id m) i) (rev l).

(** What a custom model leaves at its id in the map, over the entry (if
    any) that was there. *)
Definition overridden (formatModelName : jsstring -> jsstring)
           (existing : option ModelOption.t) (c : CustomModel.t)
  : ModelOption.t :=
  match existing with
  | None => modelToSet formatModelName c
  | Some existingModel =>
      ModelOption.mk (ModelOption.id existingModel)
        (or_else (CustomModel.label c)
                 (formatModelName (CustomModel.id c)))
        (ModelOption.requiresSubscription existingModel)
        (ModelOption.top existingModel)
        true
  end.

(** A descriptor with its custom flag cleared. *)
Definition notCustom (m : ModelOption.t) : ModelOption.t :=
  ModelOption.mk (ModelOption.id m) (ModelOption.label m)
    (ModelOption.requiresSubscription m) (ModelOption.top m) false.

(** The group of an entry in the "All Models" view: 0 recommended and
    paid, 1 recommended and free, 2 paid, 3 the rest. *)
Definition group (recommended : jsstring -> bool) (m : ModelOption.t) : Z :=
  match recommended (ModelOption.id m), ModelOption.requiresSubscription m
  with
  | true, true => 0
  | true, false => 1
  | false, true => 2
  | false, false => 3
  end.

(** [id] without a leading [openrouter/]. *)
Definition withoutOpenrouterPrefix (id : jsstring) : jsstring :=
  if startsWith id OPENROUTER_PREFIX
  then skipn (List.length OPENROUTER_PREFIX) id
  else id.

(** A custom model other than the one being edited has the id [modelId]:
    any in [add] mode, and in [edit] mode any whose id is not the one
    under edit. *)
Definition duplicateId (state : State) (modelId : jsstring) : Prop :=
  exists m,
    In m (customModels state)
    /\ CustomModel.id m = modelId
    /\ (dialogMode state = add
        \/ editingModelId state <> Some (CustomModel.id m)).

(** A handler's trace makes no call that changes the selection. *)
Definition noSelectionChange (t : list Effect) : Prop :=
  forall e, In e t ->
    match e with
    | OnModelChange _ | LocalStorageSetItem _ _ => False
    | _ => True
    end.

(** A handler's trace writes nothing to storage. *)
Definition noStorageWrite (t : list Effect) : Prop :=
  forall e, In e t ->
    match e with
    | SaveCustomModels _ | LocalStorageSetItem _ _ => False
    | _ => True
    end.

(** The number a string of decimal digits writes. *)
Definition decimalValue (ds : jsstring) : Z :=
  fold_left (fun acc c => acc * 10 + (c - 48)) ds 0.

(** A sample render: one custom model, selected, the add dialog open. *)
Definition sampleCustom : CustomModel.t :=
  CustomModel.mk (js "openrouter/llama") (js "Llama") (js "key") [].

Definition sampleProps : Props :=
  mkProps (js "openrouter/llama")
          [ModelOption.mk (js "gpt") (js "GPT") true false false]
          (fun _ => false) (js "active") true.

Definition sampleState : State :=
  mkState false None true [] (-1) [sampleCustom] true
          CustomModelFormData.empty add None.

(** * Properties *)

(** ** JavaScript strings *)

Lemma eqb_refl (a : jsstring) : eqb a a = true.
Proof.
  induction a as [|x a IH]; simpl; [reflexivity|].
  now rewrite Z.eqb_refl, IH.
Qed.

Lemma eqb_eq (a b : jsstring) : eqb a b = true <-> a = b.
Proof.
  split.
  - revert b; induction a as [|x a IH]; intros [|y b]; simpl;
      try discriminate; [reflexivity|].
    intros H. apply andb_true_iff in H as [Hx Hab].
    apply Z.eqb_eq in Hx. apply IH in Hab. now subst.
  - intros ->. apply eqb_refl.
Qed.

Lemma eqb_neq (a b : jsstring) : eqb a b = false <-> a <> b.
Proof.
  split.
  - intros H E. apply eqb_eq in E. congruence.
  - intros H. destruct (eqb a b) eqn:E; [|reflexivity].
    apply eqb_eq in E. contradiction.
Qed.

Lemma eqb_sym (a b : jsstring) : eqb a b = eqb b a.
Proof.
  destruct (eqb a b) eqn:E.
  - apply eqb_eq in E. subst. symmetry. apply eqb_refl.
  - symmetry. apply eqb_neq. apply eqb_neq in E. congruence.
Qed.

Lemma startsWith_app (p s : jsstring) : startsWith (p ++ s) p = true.
Proof.
  induction p as [|y p IH]; simpl; [reflexivity|].
  now rewrite Z.eqb_refl, IH.
Qed.

Lemma startsWith_inv (s p : jsstring) :
  startsWith s p = true -> s = p ++ skipn (List.length p) s.
Proof.
  revert s; induction p as [|y p IH]; intros s H; simpl in *.
  - reflexivity.
  - destruct s as [|x s]; [discriminate|].
    apply andb_true_iff in H as [Hx Hs]. apply Z.eqb_eq in Hx. subst.
    simpl. f_equal. now apply IH.
Qed.

(** ** Content normalizer *)

Lemma hexval_bound (c v : Z) : hexval c = Some v -> 0 <= v < 16.
Proof.
  unfold hexval.
  destruct (48 <=? c) eqn:A1, (c <=? 57) eqn:A2, (65 <=? c) eqn:A3,
           (c <=? 70) eqn:A4, (97 <=? c) eqn:A5, (c <=? 102) eqn:A6;
    simpl; intros H; inversion H; subst; lia.
Qed.

Lemma parseHex4_bound (a b c d n : Z) :
  parseHex4 a b c d = Some n -> 0 <= n < 65536.
Proof.
  unfold parseHex4.
  destruct (hexval a) as [va|] eqn:Ha; [|discriminate].
  destruct (hexval b) as [vb|] eqn:Hb; [|discriminate].
  destruct (hexval c) as [vc|] eqn:Hc; [|discriminate].
  destruct (hexval d) as [vd|] eqn:Hd; [|discriminate].
  apply hexval_bound in Ha, Hb, Hc, Hd.
  intros H; inversion H; subst. lia.
Qed.

Lemma fromCharCode_parseHex4 (a b c d n : Z) :
  parseHex4 a b c d = Some n -> fromCharCode n = n.
Proof.
  intros H. apply parseHex4_bound in H. unfold fromCharCode.
  now apply Z.mod_small.
Qed.

Lemma replaceBmp_cons (c0 : Z) (tl : jsstring) :
  replaceBmp (c0 :: tl)
  = match tl with
    | c1 :: a :: b :: c :: d :: rest =>
        if (c0 =? BACKSLASH) && (c1 =? LOWER_U) then
          match parseHex4 a b c d with
          | Some n => fromCharCode n :: replaceBmp rest
          | None => c0 :: replaceBmp tl
          end
        else c0 :: replaceBmp tl
    | _ => c0 :: replaceBmp tl
    end.
Proof. reflexivity. Qed.

Lemma replaceSupplementary_cons (c0 : Z) (tl : jsstring) :
  replaceSupplementary (c0 :: tl)
  = match tl with
    | c1 :: a :: b :: c :: d :: e :: f :: g :: h :: rest =>
        if (c0 =? BACKSLASH) && (c1 =? LOWER_U) then
          match parseHex4 a b c d, parseHex4 e f g h with
          | Some highSurrogate, Some lowSurrogate =>
              fromCharCode highSurrogate :: fromCharCode lowSurrogate
                :: replaceSupplementary rest
          | _, _ => c0 :: replaceSupplementary tl
          end
        else c0 :: replaceSupplementary tl
    | _ => c0 :: replaceSupplementary tl
    end.
Proof. reflexivity. Qed.

Lemma replaceBmp_unfold (a b c d : Z) (rest : jsstring) :
  replaceBmp (BACKSLASH :: LOWER_U :: a :: b :: c :: d :: rest)
  = match parseHex4 a b c d with
    | Some n => fromCharCode n :: replaceBmp rest
    | None =>
        BACKSLASH :: replaceBmp (LOWER_U :: a :: b :: c :: d :: rest)
    end.
Proof.
  rewrite replaceBmp_cons. cbv beta match.
  now rewrite !Z.eqb_refl.
Qed.

Lemma replaceSupplementary_unfold (a b c d e f g h : Z) (rest : jsstring) :
  replaceSupplementary
    (BACKSLASH :: LOWER_U :: a :: b :: c :: d :: e :: f :: g :: h :: rest)
  = match parseHex4 a b c d, parseHex4 e f g h with
    | Some highSurrogate, Some lowSurrogate =>
        fromCharCode highSurrogate :: fromCharCode lowSurrogate
          :: replaceSupplementary rest
    | _, _ =>
        BACKSLASH
          :: replaceSupplementary
               (LOWER_U :: a :: b :: c :: d :: e :: f :: g :: h :: rest)
    end.
Proof.
  rewrite replaceSupplementary_cons. cbv beta match.
  now rewrite !Z.eqb_refl.
Qed.

Lemma processUnicodeContent_order (content : jsstring) :
  processUnicodeContent content = replaceSupplementary (replaceBmp content).
Proof.
  unfold processUnicodeContent. destruct content; reflexivity.
Qed.

(** A backslash, [u] and four hexadecimal digits alone make the code unit
    the digits denote. *)
Lemma processUnicodeContent_bmp (a b c d n : Z) :
  parseHex4 a b c d = Some n ->
  processUnicodeContent [BACKSLASH; LOWER_U; a; b; c; d] = [n].
Proof.
  intros H. rewrite processUnicodeContent_order, replaceBmp_unfold, H.
  rewrite (fromCharCode_parseHex4 _ _ _ _ _ H). reflexivity.
Qed.

(** Where the second scan stands on a backslash, [u] and eight hexadecimal
    digits, it writes the code units of the first and of the last four. *)
Lemma replaceSupplementary_escape (a b c d e f g h hi lo : Z)
      (rest : jsstring) :
  parseHex4 a b c d = Some hi ->
  parseHex4 e f g h = Some lo ->
  replaceSupplementary
    (BACKSLASH :: LOWER_U :: a :: b :: c :: d :: e :: f :: g :: h :: rest)
  = hi :: lo :: replaceSupplementary rest.
Proof.
  intros Hhi Hlo.
  rewrite replaceSupplementary_unfold, Hhi, Hlo.
  now rewrite (fromCharCode_parseHex4 _ _ _ _ _ Hhi),
              (fromCharCode_parseHex4 _ _ _ _ _ Hlo).
Qed.


(** ** Fenced code nodes *)

Lemma takeWhile_forallb (p : Z -> bool) (s : jsstring) :
  forallb p (takeWhile p s) = true.
Proof.
  induction s as [|c s IH]; simpl; [reflexivity|].
  destruct (p c) eqn:E; simpl; [now rewrite E|reflexivity].
Qed.

Lemma takeWhile_dropWhile (p : Z -> bool) (s : jsstring) :
  s = takeWhile p s ++ dropWhile p s.
Proof.
  induction s as [|c s IH]; simpl; [reflexivity|].
  destruct (p c); simpl; [now f_equal|reflexivity].
Qed.

Lemma dropWhile_head (p : Z -> bool) (s : jsstring) :
  match dropWhile p s with
  | [] => True
  | c :: _ => p c = false
  end.
Proof.
  induction s as [|c s IH]; simpl; [exact I|].
  destruct (p c) eqn:E; [exact IH|exact E].
Qed.

Lemma takeWhile_app_nonempty (p : Z -> bool) (w post : jsstring) :
  w <> [] -> forallb p w = true -> takeWhile p (w ++ post) <> [].
Proof.
  destruct w as [|c w]; [congruence|]. simpl.
  intros _ H. apply andb_true_iff in H as [Hc _]. rewrite Hc. discriminate.
Qed.

Lemma skipn_prefix (p s : jsstring) : skipn (List.length p) (p ++ s) = s.
Proof. induction p; simpl; auto. Qed.

Lemma truthy_true (s : jsstring) : truthy s = true <-> s <> [].
Proof. destruct s; simpl; split; congruence. Qed.

Lemma truthy_false (s : jsstring) : truthy s = false <-> s = [].
Proof. destruct s; simpl; split; congruence. Qed.

Lemma execLanguage_unfold (c : Z) (tl : jsstring) :
  execLanguage (c :: tl)
  = if startsWith (c :: tl) LANGUAGE_PREFIX then
      let word :=
        takeWhile wordchar (skipn (List.length LANGUAGE_PREFIX) (c :: tl)) in
      if truthy word then Some word else execLanguage tl
    else execLanguage tl.
Proof. reflexivity. Qed.

Lemma language_at_head (w post : jsstring) :
  w <> [] -> forallb wordchar w = true ->
  startsWith (LANGUAGE_PREFIX ++ w ++ post) LANGUAGE_PREFIX = true
  /\ truthy (takeWhile wordchar
               (skipn (List.length LANGUAGE_PREFIX)
                      (LANGUAGE_PREFIX ++ w ++ post))) = true.
Proof.
  intros Hw Hall. split; [apply startsWith_app|].
  rewrite skipn_prefix. apply truthy_true.
  now apply takeWhile_app_nonempty.
Qed.

(** What [exec] captures is the word after the leftmost [language-] that
    has one, and the whole of the word: no word character comes after
    it. *)
Lemma execLanguage_sound (cls w : jsstring) :
  execLanguage cls = Some w -> leftmostLanguage cls w.
Proof.
  unfold leftmostLanguage. revert w.
  induction cls as [|c tl IH]; intros w; [discriminate|].
  rewrite execLanguage_unfold. cbv zeta.
  set (r := skipn (List.length LANGUAGE_PREFIX) (c :: tl)).
  destruct (startsWith (c :: tl) LANGUAGE_PREFIX
            && truthy (takeWhile wordchar r)) eqn:Hhead.
  - apply andb_true_iff in Hhead as [Hs Ht]. rewrite Hs, Ht.
    intros H. inversion H; subst w; clear H.
    exists [], (dropWhile wordchar r). rewrite app_nil_l.
    split; [|split; [|split; [|split]]].
    + rewrite <- takeWhile_dropWhile. now apply startsWith_inv.
    + now apply truthy_true.
    + apply takeWhile_forallb.
    + apply dropWhile_head.
    + intros. apply Nat.le_0_l.
  - assert (Hrec : (if startsWith (c :: tl) LANGUAGE_PREFIX
                    then if truthy (takeWhile wordchar r)
                         then Some (takeWhile wordchar r)
                         else execLanguage tl
                    else execLanguage tl) = execLanguage tl).
    { destruct (startsWith (c :: tl) LANGUAGE_PREFIX); [|reflexivity].
      simpl in Hhead. now rewrite Hhead. }
    rewrite Hrec. intros H.
    destruct (IH _ H) as (pre & post & E & Hne & Hall & Hpost & Hmin).
    exists (c :: pre), post.
    split; [now rewrite E|]. split; [exact Hne|]. split; [exact Hall|].
    split; [exact Hpost|].
    intros pre' w' post' E' Hne' Hall'.
    destruct pre' as [|c' pre'].
    + exfalso. rewrite app_nil_l in E'.
      destruct (language_at_head w' post' Hne' Hall') as [Hs Ht].
      unfold r in Hhead. rewrite E', Hs, Ht in Hhead. discriminate.
    + simpl. apply le_n_S. apply (Hmin pre' w' post'); auto.
      simpl in E'. now inversion E'.
Qed.

Lemma execLanguage_at (s : jsstring) :
  startsWith s LANGUAGE_PREFIX = true ->
  execLanguage s
  = if truthy (takeWhile wordchar (skipn (List.length LANGUAGE_PREFIX) s))
    then Some (takeWhile wordchar (skipn (List.length LANGUAGE_PREFIX) s))
    else execLanguage (tl s).
Proof.
  destruct s as [|c s]; [discriminate|].
  intros H. rewrite execLanguage_unfold, H. reflexivity.
Qed.

(** A class that holds [language-] and a word makes [exec] succeed. *)
Lemma execLanguage_complete (cls w : jsstring) :
  matchesLanguage cls w -> exists w', execLanguage cls = Some w'.
Proof.
  intros (pre & post & -> & Hw & Hall).
  induction pre as [|c pre IH].
  - rewrite app_nil_l, execLanguage_at by apply startsWith_app.
    rewrite skipn_prefix.
    destruct (truthy (takeWhile wordchar (w ++ post))) eqn:Ht.
    + eauto.
    + apply truthy_false in Ht.
      now apply takeWhile_app_nonempty in Ht.
  - rewrite <- app_comm_cons, execLanguage_unfold.
    destruct (startsWith _ _); [|exact IH].
    cbv zeta. destruct (truthy _); [eauto|exact IH].
Qed.

Lemma stripTrailingNewline_snoc (s : jsstring) :
  stripTrailingNewline (s ++ [NEWLINE]) = s.
Proof.
  induction s as [|c s IH]; [reflexivity|].
  simpl app. simpl stripTrailingNewline.
  destruct (s ++ [NEWLINE]) eqn:E.
  - now destruct s.
  - now rewrite IH.
Qed.

Lemma stripTrailingNewline_other (s : jsstring) :
  ~ endsWithNewline s -> stripTrailingNewline s = s.
Proof.
  induction s as [|c s IH]; [reflexivity|].
  intros H. simpl. destruct s as [|d s].
  - destruct (c =? NEWLINE) eqn:E; [|reflexivity].
    apply Z.eqb_eq in E. subst. exfalso. apply H. now exists [].
  - f_equal. apply IH. intros [s' E]. apply H.
    exists (c :: s'). simpl. now rewrite E.
Qed.

Lemma code_delegates (cls w : jsstring) (children : ReactNode) :
  execLanguage cls = Some w ->
  code (Some cls) children
  = CodeRenderer (stripTrailingNewline (String_ children)) w.
Proof.
  intros H. unfold code. rewrite H.
  destruct cls; [discriminate|reflexivity].
Qed.

Lemma code_inline (cls : jsstring) (children : ReactNode) :
  execLanguage cls = None ->
  code (Some cls) children = InlineCode (Some cls) children.
Proof.
  intros H. unfold code. rewrite H. now rewrite orb_true_r.
Qed.

(** C8: a code node whose class holds [language-<word>] is handed to the
    code renderer with its children stringified, exactly one trailing
    newline removed, and with the matched word (the whole word after the
    leftmost such tag) as language; a node without class, or whose class
    holds no such tag, is rendered as inline code and not handed over.
    Class [language-python] with children [print(1)] and a newline gives
    language [python] and text [print(1)]. *)
Theorem C8_code_node_delegation (children : ReactNode) :
  (forall cls,
      (exists w, matchesLanguage cls w) ->
      exists w,
        leftmostLanguage cls w
        /\ execLanguage cls = Some w
        /\ code (Some cls) children
           = CodeRenderer (stripTrailingNewline (String_ children)) w)
  /\ (forall cls,
        ~ (exists w, matchesLanguage cls w) ->
        code (Some cls) children = InlineCode (Some cls) children)
  /\ code None children = InlineCode None children
  /\ (forall s, stripTrailingNewline (s ++ [NEWLINE]) = s)
  /\ (forall s, ~ endsWithNewline s -> stripTrailingNewline s = s)
  /\ code (Some (js "language-python")) (RText (js "print(1)" ++ [NEWLINE]))
     = CodeRenderer (js "print(1)") (js "python").
Proof.
  split; [|split; [|split; [|split; [|split]]]].
  - intros cls [w0 Hm].
    destruct (execLanguage_complete _ _ Hm) as [w Hw].
    exists w. split; [|split].
    + now apply execLanguage_sound.
    + exact Hw.
    + now apply code_delegates.
  - intros cls Hno. apply code_inline.
    destruct (execLanguage cls) as [w|] eqn:E; [|reflexivity].
    exfalso. apply Hno. exists w.
    destruct (execLanguage_sound _ _ E) as (pre & post & E' & Hne & Hall & _).
    now exists pre, post.
  - reflexivity.
  - exact stripTrailingNewline_snoc.
  - exact stripTrailingNewline_other.
  - vm_compute. reflexivity.
Qed.

Lemma C8_code_node_delegation_witness :
  (exists w,
      leftmostLanguage (js "hljs language-c++") w
      /\ execLanguage (js "hljs language-c++") = Some w
      /\ code (Some (js "hljs language-c++")) (RText (js "int x;"))
         = CodeRenderer (stripTrailingNewline (String_ (RText (js "int x;"))))
                        w)
  /\ stripTrailingNewline (js "a") = js "a".
Proof.
  destruct (C8_code_node_delegation (RText (js "int x;")))
    as (Hdel & _ & _ & _ & Hkeep & _).
  split.
  - apply Hdel. exists (js "c"), (js "hljs "), (js "++").
    split; [vm_compute; reflexivity|].
    split; [discriminate|reflexivity].
  - apply Hkeep. intros [s' E]. vm_compute in E.
    destruct s' as [|x [|y s']]; discriminate.
Defined.

(** ** Image nodes *)

Lemma split_head (sep : Z) (s : jsstring) :
  nth 0 (split sep s) [] = takeWhile (fun c => negb (c =? sep)) s.
Proof.
  induction s as [|c s IH]; simpl; [reflexivity|].
  destruct (c =? sep); simpl; [reflexivity|].
  destruct (split sep s) as [|piece pieces]; simpl in *; now rewrite <- IH.
Qed.

Lemma startsWith_takeWhile (q : Z -> bool) (p s : jsstring) :
  forallb q p = true ->
  startsWith (takeWhile q s) p = startsWith s p.
Proof.
  revert s; induction p as [|y p IH]; intros s Hq; simpl; [reflexivity|].
  simpl in Hq. apply andb_true_iff in Hq as [Hy Hp].
  destruct s as [|x s]; simpl; [reflexivity|].
  destruct (q x) eqn:Hx; simpl.
  - now rewrite IH.
  - destruct (x =? y) eqn:E; [|reflexivity].
    apply Z.eqb_eq in E. congruence.
Qed.

(** The [url] the component renders: the source up to its first [#]. *)
Lemma img_url_prefix (src p : jsstring) :
  forallb notHash p = true ->
  startsWith (nth 0 (split HASH src) []) p = startsWith src p.
Proof.
  intros H. rewrite split_head. now apply startsWith_takeWhile.
Qed.

Lemma imgDimensions_cases (src : jsstring) :
  let '(w, h, hasDimensions) := imgDimensions src in
  if hasDimensions
  then isNaN w = false /\ isNaN h = false /\ gt0 w = true /\ gt0 h = true
  else w = DEFAULT_WIDTH /\ h = DEFAULT_HEIGHT.
Proof.
  unfold imgDimensions.
  destruct (nth_error (split HASH src) 1) as [hash|]; [|now split].
  destruct (truthy hash); [|now split].
  destruct (List.map Number (split LOWER_X hash)) as [|d0 [|d1 [|d2 l]]];
    try now split.
  destruct (negb (isNaN d0) && negb (isNaN d1) && gt0 d0 && gt0 d1) eqn:E;
    [|now split].
  apply andb_true_iff in E as [E G1]. apply andb_true_iff in E as [E G0].
  apply andb_true_iff in E as [N0 N1].
  apply negb_true_iff in N0, N1. now repeat split.
Qed.

(** C4: [foo.png#300x200] is rendered 300 by 200; fragments [abcxdef] and
    [0x0] leave the default 500 by 300; a source that starts with [data:]
    or [blob:] is rendered as a plain image element whatever its fragment,
    and any other source as a managed image with the resolved dimensions,
    which are the two parts of the fragment when both are numbers above
    zero and the defaults otherwise. *)
Theorem C4_img_dimensions_and_element (alt : option jsstring) :
  let alt' := or_else (match alt with Some a => a | None => [] end)
                      DEFAULT_ALT in
  img (js "foo.png#300x200") alt
  = ManagedImage (js "foo.png") alt' (Finite false 300 0) (Finite false 200 0)
  /\ img (js "foo.png#abcxdef") alt
     = ManagedImage (js "foo.png") alt' (Finite false 500 0)
                    (Finite false 300 0)
  /\ img (js "foo.png#0x0") alt
     = ManagedImage (js "foo.png") alt' (Finite false 500 0)
                    (Finite false 300 0)
  /\ img (js "data:image/png;base64,AAAA") alt
     = PlainImg (js "data:image/png;base64,AAAA") alt'
  /\ (forall src,
        startsWith src (js "data:") || startsWith src (js "blob:") = true ->
        img src alt = PlainImg (takeWhile notHash src) alt')
  /\ (forall src,
        startsWith src (js "data:") || startsWith src (js "blob:") = false ->
        img src alt
        = ManagedImage (takeWhile notHash src) alt'
            (fst (fst (imgDimensions src))) (snd (fst (imgDimensions src))))
  /\ (forall src,
        let '(w, h, hasDimensions) := imgDimensions src in
        if hasDimensions
        then isNaN w = false /\ isNaN h = false
             /\ gt0 w = true /\ gt0 h = true
        else w = DEFAULT_WIDTH /\ h = DEFAULT_HEIGHT).
Proof.
  cbv zeta.
  split; [destruct alt; vm_compute; reflexivity|].
  split; [destruct alt; vm_compute; reflexivity|].
  split; [destruct alt; vm_compute; reflexivity|].
  split; [destruct alt; vm_compute; reflexivity|].
  split; [|split].
  - intros src H. unfold img.
    rewrite !img_url_prefix by reflexivity. rewrite H.
    destruct (imgDimensions src) as [[w h] b]. now rewrite split_head.
  - intros src H. unfold img.
    rewrite !img_url_prefix by reflexivity. rewrite H.
    destruct (imgDimensions src) as [[w h] b]. now rewrite split_head.
  - exact imgDimensions_cases.
Qed.

Lemma C4_img_dimensions_and_element_witness :
  img (js "blob:http://host/1#300x200") None
  = PlainImg (takeWhile notHash (js "blob:http://host/1#300x200"))
             DEFAULT_ALT
  /\ img (js "a.png#2x3#x") (Some (js "logo"))
     = ManagedImage (takeWhile notHash (js "a.png#2x3#x")) (js "logo")
         (fst (fst (imgDimensions (js "a.png#2x3#x"))))
         (snd (fst (imgDimensions (js "a.png#2x3#x")))).
Proof.
  split.
  - destruct (C4_img_dimensions_and_element None)
      as (_ & _ & _ & _ & Hplain & _).
    apply Hplain. vm_compute. reflexivity.
  - destruct (C4_img_dimensions_and_element (Some (js "logo")))
      as (_ & _ & _ & _ & _ & Hmanaged & _).
    apply Hmanaged. vm_compute. reflexivity.
Defined.

(** ** Lists of ids *)

Lemma mem_In (x : jsstring) (l : list jsstring) : mem x l = true <-> In x l.
Proof.
  unfold mem. rewrite existsb_exists. split.
  - intros (y & Hy & E). apply eqb_eq in E. now subst.
  - intros H. exists x. split; [exact H|apply eqb_refl].
Qed.

Lemma mem_app (x : jsstring) (l1 l2 : list jsstring) :
  mem x (l1 ++ l2) = mem x l1 || mem x l2.
Proof. apply existsb_app. Qed.

Lemma filter_filter {A : Type} (p q : A -> bool) (l : list A) :
  filter p (filter q l) = filter (fun x => q x && p x) l.
Proof.
  induction l as [|x l IH]; simpl; [reflexivity|].
  destruct (q x); simpl; [destruct (p x)|]; now rewrite IH.
Qed.

Lemma filter_all {A : Type} (p : A -> bool) (l : list A) :
  (forall x, In x l -> p x = true) -> filter p l = l.
Proof.
  induction l as [|x l IH]; simpl; intros H; [reflexivity|].
  rewrite (H x) by now left. f_equal. apply IH. intros y Hy. apply H.
  now right.
Qed.

Lemma In_dedup (x : jsstring) (l : list jsstring) :
  In x (dedup l) <-> In x l.
Proof.
  induction l as [|a l IH]; simpl; [reflexivity|].
  rewrite filter_In, IH. split.
  - intros [H|[H _]]; auto.
  - intros [H|H]; [now left|].
    destruct (eqb x a) eqn:E.
    + left. apply eqb_eq in E. now subst.
    + right. now split.
Qed.

Lemma NoDup_dedup (l : list jsstring) : NoDup (dedup l).
Proof.
  induction l as [|a l IH]; simpl; constructor.
  - rewrite filter_In. intros [_ H]. now rewrite eqb_refl in H.
  - now apply NoDup_filter.
Qed.

Lemma dedup_NoDup (l : list jsstring) : NoDup l -> dedup l = l.
Proof.
  induction 1 as [|a l Ha Hl IH]; simpl; [reflexivity|].
  rewrite IH. f_equal. apply filter_all. intros y Hy.
  apply negb_true_iff, eqb_neq. intros ->. contradiction.
Qed.

Lemma filter_dedup (p : jsstring -> bool) (l : list jsstring) :
  filter p (dedup l) = dedup (filter p l).
Proof.
  induction l as [|a l IH]; simpl; [reflexivity|].
  destruct (p a) eqn:Pa; simpl.
  - f_equal. rewrite <- IH, !filter_filter. apply filter_ext.
    intros y. apply andb_comm.
  - rewrite <- IH, filter_filter. apply filter_ext_in. intros y _.
    destruct (eqb y a) eqn:E; simpl; [|reflexivity].
    apply eqb_eq in E. subst. now rewrite Pa.
Qed.

Lemma mem_dedup (x : jsstring) (l : list jsstring) :
  mem x (dedup l) = mem x l.
Proof.
  destruct (mem x l) eqn:E.
  - apply mem_In, In_dedup, mem_In, E.
  - destruct (mem x (dedup l)) eqn:E'; [|reflexivity].
    apply (proj1 (mem_In _ _)) in E'. apply (proj1 (In_dedup _ _)) in E'.
    apply (proj2 (mem_In _ _)) in E'. congruence.
Qed.

(** Keys added one after the other: those there at first, then the new
    ones where they first occur. *)
Lemma fold_addKey (l ks : list jsstring) :
  fold_left addKey l ks
  = ks ++ dedup (filter (fun x => negb (mem x ks)) l).
Proof.
  revert ks; induction l as [|x l IH]; intros ks; simpl.
  - now rewrite app_nil_r.
  - unfold addKey at 2. destruct (mem x ks) eqn:E; simpl.
    + apply IH.
    + rewrite IH, <- app_assoc. simpl. do 2 f_equal.
      rewrite filter_dedup, filter_filter. f_equal.
      apply filter_ext. intros y.
      rewrite mem_app. simpl. unfold mem at 2. simpl.
      rewrite orb_false_r, negb_orb. reflexivity.
Qed.

(** ** The [Map] of the merge *)

Section JsMapFacts.
Context {V : Type}.
Implicit Types (m : JsMap.t V) (k i : jsstring) (v : V).

Lemma has_mem k m : JsMap.has k m = mem k (JsMap.keys m).
Proof.
  unfold JsMap.has. induction m as [|[k' v'] m IH]; simpl; [reflexivity|].
  rewrite (eqb_sym k k'). destruct (eqb k' k); simpl; [reflexivity|].
  exact IH.
Qed.

Lemma keys_set k v m : JsMap.keys (JsMap.set k v m) = addKey (JsMap.keys m) k.
Proof.
  unfold addKey. induction m as [|[k' v'] m IH]; simpl; [reflexivity|].
  unfold mem in *. simpl. rewrite (eqb_sym k k').
  destruct (eqb k' k); simpl; [reflexivity|].
  rewrite IH. now destruct (existsb (eqb k) (JsMap.keys m)).
Qed.

Lemma get_set i k v m :
  JsMap.get i (JsMap.set k v m)
  = if eqb k i then Some v else JsMap.get i m.
Proof.
  induction m as [|[k' v'] m IH]; simpl; [reflexivity|].
  destruct (eqb k' k) eqn:E; simpl.
  - apply eqb_eq in E. subst k'. now destruct (eqb k i).
  - rewrite IH. destruct (eqb k' i) eqn:E'; [|reflexivity].
    destruct (eqb k i) eqn:E''; [|reflexivity].
    apply eqb_eq in E', E''. subst. now rewrite eqb_refl in E.
Qed.

Lemma get_In k v m :
  NoDup (JsMap.keys m) -> In (k, v) m -> JsMap.get k m = Some v.
Proof.
  induction m as [|[k' v'] m IH]; simpl; [contradiction|].
  intros Hnd [H|H].
  - inversion H; subst. now rewrite eqb_refl.
  - inversion Hnd as [|? ? Hk Hm]; subst.
    destruct (eqb k' k) eqn:E; [|now apply IH].
    apply eqb_eq in E. subst. exfalso. apply Hk.
    change k with (fst (k, v)). now apply in_map.
Qed.

Lemma keys_fold {X : Type} (f : JsMap.t V -> X -> JsMap.t V)
      (key : X -> jsstring) :
  (forall m x, JsMap.keys (f m x) = addKey (JsMap.keys m) (key x)) ->
  forall l m,
    JsMap.keys (fold_left f l m)
    = fold_left addKey (List.map key l) (JsMap.keys m).
Proof.
  intros Hf l. induction l as [|x l IH]; intros m; simpl; [reflexivity|].
  now rewrite IH, Hf.
Qed.

End JsMapFacts.

Section CatalogFacts.

Variable formatModelName : jsstring -> jsstring.

Lemma keyedById_get (m : JsMap.t ModelOption.t) k v :
  keyedById m -> JsMap.get k m = Some v -> ModelOption.id v = k.
Proof.
  unfold keyedById. induction m as [|[k' v'] m IH]; simpl; [discriminate|].
  intros Hm. apply Forall_cons_iff in Hm as [Hkv Hm']. simpl in Hkv.
  destruct (eqb k' k) eqn:E.
  - intros H. inversion H; subst. apply eqb_eq in E. congruence.
  - now apply IH.
Qed.

Lemma keyedById_set (m : JsMap.t ModelOption.t) k v :
  keyedById m -> ModelOption.id v = k -> keyedById (JsMap.set k v m).
Proof.
  unfold keyedById. intros Hm Hv.
  induction m as [|[k' v'] m IH]; simpl.
  - constructor; [exact Hv|constructor].
  - apply Forall_cons_iff in Hm as [Hkv Hm'].
    destruct (eqb k' k) eqn:E.
    + constructor; [|exact Hm']. apply eqb_eq in E. simpl. congruence.
    + constructor; [exact Hkv|now apply IH].
Qed.

Lemma keyedById_values (m : JsMap.t ModelOption.t) :
  keyedById m -> List.map ModelOption.id (JsMap.values m) = JsMap.keys m.
Proof.
  unfold keyedById, JsMap.values, JsMap.keys.
  induction 1 as [|[k v] m Hkv Hm IH]; simpl; [reflexivity|].
  simpl in Hkv. now rewrite Hkv, IH.
Qed.

Lemma keys_addStandard m x :
  JsMap.keys (addStandard m x) = addKey (JsMap.keys m) (ModelOption.id x).
Proof. apply keys_set. Qed.

Lemma keys_addCustom m c :
  JsMap.keys (addCustom formatModelName m c)
  = addKey (JsMap.keys m) (CustomModel.id c).
Proof.
  unfold addCustom. destruct (JsMap.get _ m); apply keys_set.
Qed.

Lemma keyedById_addStandard m x :
  keyedById m -> keyedById (addStandard m x).
Proof. intros H. now apply keyedById_set. Qed.

Lemma keyedById_addCustom m c :
  keyedById m -> keyedById (addCustom formatModelName m c).
Proof.
  intros H. unfold addCustom.
  destruct (JsMap.get _ m) as [ex|] eqn:E; apply keyedById_set; auto.
  simpl. now apply keyedById_get with (m := m).
Qed.

Lemma keyedById_fold {X : Type}
      (f : JsMap.t ModelOption.t -> X -> JsMap.t ModelOption.t) :
  (forall m x, keyedById m -> keyedById (f m x)) ->
  forall l m, keyedById m -> keyedById (fold_left f l m).
Proof.
  intros Hf l. induction l as [|x l IH]; intros m Hm; simpl; auto.
Qed.

Lemma keyedById_modelMap bs cs :
  keyedById (modelMap formatModelName bs cs).
Proof.
  unfold modelMap.
  apply keyedById_fold; [exact keyedById_addCustom|].
  apply keyedById_fold; [exact keyedById_addStandard|].
  constructor.
Qed.

(** The ids of the catalog: the standard ones where they first occur,
    then those of the custom models that are not among them. *)
Lemma keys_modelMap bs cs :
  JsMap.keys (modelMap formatModelName bs cs)
  = dedup (List.map ModelOption.id bs)
    ++ dedup (filter (fun i => negb (mem i (List.map ModelOption.id bs)))
                     (List.map CustomModel.id cs)).
Proof.
  unfold modelMap.
  rewrite (keys_fold _ CustomModel.id keys_addCustom).
  rewrite (keys_fold _ ModelOption.id keys_addStandard).
  simpl JsMap.keys. rewrite (fold_addKey (List.map ModelOption.id bs) []).
  simpl app. rewrite (filter_all (fun x => negb (mem x []))) by reflexivity.
  rewrite fold_addKey. f_equal. f_equal. apply filter_ext. intros i.
  now rewrite mem_dedup.
Qed.

Lemma lastStandard_snoc i bs b :
  lastStandard i (bs ++ [b])
  = if eqb (ModelOption.id b) i then Some b else lastStandard i bs.
Proof. unfold lastStandard. now rewrite rev_unit. Qed.

Lemma lastCustom_snoc i cs c :
  lastCustom i (cs ++ [c])
  = if eqb (CustomModel.id c) i then Some c else lastCustom i cs.
Proof. unfold lastCustom. now rewrite rev_unit. Qed.

Lemma get_addStandard i m x :
  JsMap.get i (addStandard m x)
  = if eqb (ModelOption.id x) i then Some (notCustom x) else JsMap.get i m.
Proof. apply get_set. Qed.

Lemma get_addCustom i m c :
  JsMap.get i (addCustom formatModelName m c)
  = if eqb (CustomModel.id c) i
    then Some (overridden formatModelName (JsMap.get i m) c)
    else JsMap.get i m.
Proof.
  unfold addCustom.
  destruct (JsMap.get (CustomModel.id c) m) as [ex|] eqn:E;
    rewrite get_set; destruct (eqb (CustomModel.id c) i) eqn:Ei;
    try reflexivity; apply eqb_eq in Ei; subst i; now rewrite E.
Qed.

Lemma get_standard i bs m :
  JsMap.get i (fold_left addStandard bs m)
  = match lastStandard i bs with
    | Some b => Some (notCustom b)
    | None => JsMap.get i m
    end.
Proof.
  induction bs as [|b bs IH] using rev_ind; [reflexivity|].
  rewrite fold_left_app, lastStandard_snoc. simpl.
  rewrite get_addStandard. now destruct (eqb (ModelOption.id b) i).
Qed.

Lemma overridden_twice o c1 c2 :
  CustomModel.id c1 = CustomModel.id c2 ->
  overridden formatModelName (Some (overridden formatModelName o c1)) c2
  = overridden formatModelName o c2.
Proof.
  intros E. destruct o as [ex|]; simpl; [reflexivity|]. now rewrite E.
Qed.

Lemma get_custom i cs m :
  JsMap.get i (fold_left (addCustom formatModelName) cs m)
  = match lastCustom i cs with
    | Some c => Some (overridden formatModelName (JsMap.get i m) c)
    | None => JsMap.get i m
    end.
Proof.
  induction cs as [|c cs IH] using rev_ind; [reflexivity|].
  rewrite fold_left_app, lastCustom_snoc. simpl.
  rewrite get_addCustom.
  destruct (eqb (CustomModel.id c) i) eqn:Ei; [|exact IH].
  rewrite IH. destruct (lastCustom i cs) as [c1|] eqn:E1; [|reflexivity].
  rewrite overridden_twice; [reflexivity|].
  apply find_some in E1 as [_ E1]. apply eqb_eq in E1, Ei. congruence.
Qed.

Lemma get_modelMap i bs cs :
  JsMap.get i (modelMap formatModelName bs cs)
  = match lastCustom i cs with
    | Some c =>
        Some (overridden formatModelName
                (option_map notCustom (lastStandard i bs)) c)
    | None => option_map notCustom (lastStandard i bs)
    end.
Proof.
  unfold modelMap. rewrite get_custom, get_standard. simpl.
  now destruct (lastStandard i bs).
Qed.

Lemma NoDup_keys_modelMap bs cs :
  NoDup (JsMap.keys (modelMap formatModelName bs cs)).
Proof.
  unfold modelMap.
  rewrite (keys_fold _ CustomModel.id keys_addCustom).
  rewrite (keys_fold _ ModelOption.id keys_addStandard).
  simpl JsMap.keys. rewrite (fold_addKey (List.map ModelOption.id bs) []).
  simpl app. set (kb := dedup _).
  assert (Hkb : NoDup kb) by apply NoDup_dedup.
  revert Hkb. generalize kb. clear kb.
  induction (List.map CustomModel.id cs) as [|x l IH]; intros ks Hks; simpl;
    [exact Hks|].
  apply IH. unfold addKey. destruct (mem x ks) eqn:E; [exact Hks|].
  apply NoDup_app; [exact Hks|repeat constructor; intros []|].
  intros y Hy [<-|[]]. apply mem_In in Hy. congruence.
Qed.

Lemma In_enhanced_get e bs cs :
  In e (enhancedModelOptions formatModelName bs cs) ->
  JsMap.get (ModelOption.id e) (modelMap formatModelName bs cs) = Some e.
Proof.
  unfold enhancedModelOptions, JsMap.values. intros H.
  apply in_map_iff in H as ([k v] & <- & Hin). simpl.
  pose proof (keyedById_modelMap bs cs) as Hk.
  unfold keyedById in Hk. rewrite Forall_forall in Hk.
  specialize (Hk _ Hin). simpl in Hk. rewrite Hk.
  apply get_In; [apply NoDup_keys_modelMap|exact Hin].
Qed.

End CatalogFacts.

(** ** The merged catalog *)

(** C2 (as amended): in the merged catalog every id of either list occurs
    once; the ids of the built-in list come first, in the order they first
    occur, then the ids of the custom models that are not among them; an
    entry whose id is among the custom models has [isCustom = true] and the
    label of the (last) custom model with that id, or [formatModelName] of
    the id when that label is empty, and keeps the other fields of the
    built-in entry it overrides; an entry whose id is only among the
    built-ins is the (last) built-in entry with that id, not custom.
    Built-ins [a], [b] merged with the custom model [b] labelled [B2] give
    two entries: [a] as it was, and [b] with label [B2] and
    [isCustom = true]. *)
Theorem C2_merged_catalog (formatModelName : jsstring -> jsstring)
        (builtIns : list ModelOption.t) (customs : list CustomModel.t) :
  let merged := enhancedModelOptions formatModelName builtIns customs in
  NoDup (List.map ModelOption.id merged)
  /\ List.map ModelOption.id merged
     = dedup (List.map ModelOption.id builtIns)
       ++ dedup (filter
                   (fun i => negb (mem i (List.map ModelOption.id builtIns)))
                   (List.map CustomModel.id customs))
  /\ (forall e,
        In e merged ->
        match lastCustom (ModelOption.id e) customs,
              lastStandard (ModelOption.id e) builtIns with
        | Some c, Some b =>
            e = ModelOption.mk (ModelOption.id b)
                  (or_else (CustomModel.label c)
                           (formatModelName (CustomModel.id c)))
                  (ModelOption.requiresSubscription b) (ModelOption.top b)
                  true
        | Some c, None =>
            e = ModelOption.mk (CustomModel.id c)
                  (or_else (CustomModel.label c)
                           (formatModelName (CustomModel.id c)))
                  false false true
        | None, Some b => e = notCustom b
        | None, None => False
        end)
  /\ (NoDup (List.map ModelOption.id builtIns) ->
      firstn (List.length builtIns) (List.map ModelOption.id merged)
      = List.map ModelOption.id builtIns)
  /\ (forall labelA labelB paidA paidB topA topB apiKey apiBase,
        enhancedModelOptions formatModelName
          [ModelOption.mk (js "a") labelA paidA topA false;
           ModelOption.mk (js "b") labelB paidB topB false]
          [CustomModel.mk (js "b") (js "B2") apiKey apiBase]
        = [ModelOption.mk (js "a") labelA paidA topA false;
           ModelOption.mk (js "b") (js "B2") paidB topB true]).
Proof.
  cbv zeta.
  assert (Hids : List.map ModelOption.id
                   (enhancedModelOptions formatModelName builtIns customs)
                 = JsMap.keys (modelMap formatModelName builtIns customs)).
  { apply keyedById_values, keyedById_modelMap. }
  split; [rewrite Hids; apply NoDup_keys_modelMap|].
  split; [rewrite Hids; apply keys_modelMap|].
  split; [|split].
  - intros e He. apply In_enhanced_get in He.
    rewrite get_modelMap in He.
    destruct (lastCustom (ModelOption.id e) customs) as [c|],
             (lastStandard (ModelOption.id e) builtIns) as [b|];
      simpl in He; inversion He; reflexivity.
  - intros Hnd. rewrite Hids, keys_modelMap, (dedup_NoDup _ Hnd).
    rewrite <- (length_map ModelOption.id builtIns).
    now rewrite firstn_app, Nat.sub_diag, firstn_all, app_nil_r.
  - intros. reflexivity.
Qed.

Lemma C2_merged_catalog_witness :
  let formatModelName := fun i : jsstring => i in
  let builtIns :=
    [ModelOption.mk (js "a") (js "A") false false false;
     ModelOption.mk (js "b") (js "B") true false false] in
  let customs :=
    [CustomModel.mk (js "b") (js "B2") [] [];
     CustomModel.mk (js "c") [] [] []] in
  let e := ModelOption.mk (js "b") (js "B2") true false true in
  match lastCustom (ModelOption.id e) customs,
        lastStandard (ModelOption.id e) builtIns with
  | Some c, Some b =>
      e = ModelOption.mk (ModelOption.id b)
            (or_else (CustomModel.label c)
                     (formatModelName (CustomModel.id c)))
            (ModelOption.requiresSubscription b) (ModelOption.top b) true
  | Some c, None =>
      e = ModelOption.mk (CustomModel.id c)
            (or_else (CustomModel.label c)
                     (formatModelName (CustomModel.id c)))
            false false true
  | None, Some b => e = notCustom b
  | None, None => False
  end
  /\ firstn (List.length builtIns)
       (List.map ModelOption.id
          (enhancedModelOptions formatModelName builtIns customs))
     = List.map ModelOption.id builtIns.
Proof.
  intros formatModelName builtIns customs e.
  destruct (C2_merged_catalog formatModelName builtIns customs)
    as (_ & _ & Hentry & Hfirst & _).
  split.
  - apply Hentry. vm_compute. right. left. reflexivity.
  - apply Hfirst. vm_compute.
    repeat constructor; simpl; intuition discriminate.
Defined.

(** C2 as stated fails where a custom model comes without label: the
    entry is labelled by [formatModelName], not with the custom model's
    (empty) label. *)
Lemma C2_custom_label_counterexample :
  let builtIns :=
    [ModelOption.mk (js "a") (js "A") false false false;
     ModelOption.mk (js "b") (js "B") true false false] in
  let custom := CustomModel.mk (js "b") [] [] [] in
  enhancedModelOptions (fun i => js "Model " ++ i) builtIns [custom]
  = [ModelOption.mk (js "a") (js "A") false false false;
     ModelOption.mk (js "b") (js "Model b") true false true]
  /\ (forall formatModelName,
        formatModelName (js "b") <> [] ->
        exists e,
          In e (enhancedModelOptions formatModelName builtIns [custom])
          /\ ModelOption.id e = CustomModel.id custom
          /\ ModelOption.label e <> CustomModel.label custom).
Proof.
  cbv zeta. split; [vm_compute; reflexivity|].
  intros formatModelName H.
  exists (ModelOption.mk (js "b") (formatModelName (js "b")) true false true).
  split; [|split; [reflexivity|exact H]].
  right. left. unfold enhancedModelOptions, modelMap. simpl.
  unfold or_else. simpl.
  destruct (formatModelName (js "b")) eqn:E; [contradiction|reflexivity].
Qed.

(** ** Selection *)

Section SelectionFacts.

Variable formatModelName : jsstring -> jsstring.
Variable toLowerCase : jsstring -> jsstring.
Variable props : Props.
Variable state : State.

Lemma lastCustom_mem i cs :
  match lastCustom i cs with Some _ => true | None => false end
  = mem i (List.map CustomModel.id cs).
Proof.
  induction cs as [|c cs IH] using rev_ind; [reflexivity|].
  rewrite lastCustom_snoc, map_app, mem_app.
  change (mem i (List.map CustomModel.id [c]))
    with (eqb i (CustomModel.id c) || false).
  rewrite orb_false_r, (eqb_sym i).
  destruct (eqb (CustomModel.id c) i); [now rewrite orb_true_r|].
  now rewrite orb_false_r.
Qed.

Lemma overridden_isCustom o c :
  ModelOption.isCustom (overridden formatModelName o c) = true.
Proof. now destruct o. Qed.

(** The entry [handleSelect] finds for an id is custom exactly when a
    custom model has that id. *)
Lemma target_isCustom (id : jsstring) :
  match find (fun opt => eqb (ModelOption.id opt) id)
             (enhanced formatModelName props state) with
  | Some opt => ModelOption.isCustom opt
  | None => false
  end
  = mem id (List.map CustomModel.id (customModels state)).
Proof.
  unfold enhanced. rewrite <- lastCustom_mem.
  destruct (find _ _) as [opt|] eqn:F.
  - apply find_some in F as [Hin E]. apply eqb_eq in E. subst id.
    pose proof (Hentry := In_enhanced_get formatModelName _ _ _ Hin).
    rewrite get_modelMap in Hentry.
    destruct (lastCustom _ _) as [c|]; simpl in *.
    + inversion Hentry as [E]. rewrite <- E.
      apply overridden_isCustom.
    + destruct (lastStandard _ _) as [b|] eqn:LS; simpl in Hentry;
        [|discriminate].
      injection Hentry as E. now rewrite <- E.
  - destruct (lastCustom id (customModels state)) as [c|] eqn:L;
      [|reflexivity].
    exfalso.
    assert (Hk : In id (JsMap.keys (modelMap formatModelName
                                      (modelOptions props)
                                      (customModels state)))).
    { rewrite keys_modelMap, in_app_iff, !In_dedup, filter_In.
      destruct (mem id (List.map ModelOption.id (modelOptions props)))
        eqn:M.
      - left. now apply mem_In.
      - right. split; [|reflexivity].
        apply mem_In. rewrite <- lastCustom_mem, L. reflexivity. }
    rewrite <- (keyedById_values _ (keyedById_modelMap _ _ _)) in Hk.
    apply in_map_iff in Hk as (opt & E & Hin).
    apply (find_none _ _ F) in Hin. simpl in Hin.
    rewrite E, eqb_refl in Hin. discriminate.
Qed.

(** C3: a commit on a custom target changes the selection and closes the
    dropdown without a call of [canAccessModel]; on another target
    [canAccessModel] is called with the id, and the selection changes and
    the dropdown closes when it answers [true], while on [false] the locked
    model is set to the id and the paywall opened, with no selection change
    and the dropdown's open flag left as it was. *)
Theorem C3_handleSelect_gating (id : jsstring) (s : State) :
  let isCustomModel :=
    match find (fun opt => eqb (ModelOption.id opt) id)
               (enhanced formatModelName props state) with
    | Some opt => ModelOption.isCustom opt
    | None => false
    end in
  isCustomModel = mem id (List.map CustomModel.id (customModels state))
  /\ exec (handleSelect formatModelName props state id) s
     = if isCustomModel then
         (mkState (paywallOpen s) (lockedModel s) false (searchQuery s)
            (highlightedIndex s) (customModels s)
            (isCustomModelDialogOpen s) (dialogInitialData s)
            (dialogMode s) (editingModelId s),
          [OnModelChange id])
       else if canAccessModel props id then
         (mkState (paywallOpen s) (lockedModel s) false (searchQuery s)
            (highlightedIndex s) (customModels s)
            (isCustomModelDialogOpen s) (dialogInitialData s)
            (dialogMode s) (editingModelId s),
          [CanAccessModel id; OnModelChange id])
       else
         (mkState true (Some id) (isOpen s) (searchQuery s)
            (highlightedIndex s) (customModels s)
            (isCustomModelDialogOpen s) (dialogInitialData s)
            (dialogMode s) (editingModelId s),
          [CanAccessModel id]).
Proof.
  cbv zeta. split; [apply target_isCustom|].
  unfold handleSelect.
  destruct (match find _ _ with Some opt => ModelOption.isCustom opt
                              | None => false end).
  - reflexivity.
  - unfold exec, bind, callCanAccessModel, emit, ret. simpl.
    destruct (canAccessModel props id); reflexivity.
Qed.

(** C9: Enter with a negative highlighted index commits nothing: no call
    of [handleSelect], state unchanged; Enter commits the highlighted entry
    when the index is at least 0 and below the length of the filtered
    list, and nothing when it is beyond. *)
Theorem C9_enter_commits_highlighted_only (s : State) :
  let options := filteredOptions formatModelName toLowerCase props state in
  let index := highlightedIndex state in
  exec (handleSearchInputKeyDown formatModelName toLowerCase props state
          (js "Enter")) s
  = (if index <? 0 then (s, [StopPropagation])
     else
       match nth_error options (Z.to_nat index) with
       | Some selectedOption =>
           let '(s', t) :=
             exec (handleSelect formatModelName props state
                     (ModelOption.id selectedOption)) s in
           (s', StopPropagation :: PreventDefault :: t)
       | None => (s, [StopPropagation; PreventDefault])
       end)
  /\ (index < 0 ->
      exec (handleSearchInputKeyDown formatModelName toLowerCase props state
              (js "Enter")) s
      = (s, [StopPropagation]))
  /\ (0 <= index ->
      (exists selectedOption,
          nth_error options (Z.to_nat index) = Some selectedOption)
      <-> index < Z.of_nat (List.length options)).
Proof.
  cbv zeta.
  assert (Hexec :
    exec (handleSearchInputKeyDown formatModelName toLowerCase props state
            (js "Enter")) s
    = (if highlightedIndex state <? 0 then (s, [StopPropagation])
       else
         match nth_error (filteredOptions formatModelName toLowerCase props
                            state)
                         (Z.to_nat (highlightedIndex state)) with
         | Some selectedOption =>
             let '(s', t) :=
               exec (handleSelect formatModelName props state
                       (ModelOption.id selectedOption)) s in
             (s', StopPropagation :: PreventDefault :: t)
         | None => (s, [StopPropagation; PreventDefault])
         end)).
  { unfold handleSearchInputKeyDown.
    change (eqb (js "Enter") (js "ArrowDown")) with false.
    change (eqb (js "Enter") (js "ArrowUp")) with false.
    change (eqb (js "Enter") (js "Enter")) with true.
    cbv beta iota. rewrite andb_true_l, (Z.ltb_antisym 0).
    destruct (0 <=? highlightedIndex state); simpl negb; cbv iota.
    - destruct (nth_error _ _) as [opt|].
      + unfold exec, bind, emit.
        destruct (handleSelect _ _ _ _ s) as [[u s'] t]. reflexivity.
      + reflexivity.
    - reflexivity. }
  split; [exact Hexec|split].
  - intros Hneg. rewrite Hexec.
    now apply Z.ltb_lt in Hneg as ->.
  - intros Hpos. split.
    + intros [opt Hopt].
      assert (Hlt : (Z.to_nat (highlightedIndex state)
                     < List.length (filteredOptions formatModelName
                                      toLowerCase props state))%nat).
      { apply nth_error_Some. congruence. }
      lia.
    + intros Hlt.
      destruct (nth_error (filteredOptions formatModelName toLowerCase
                             props state)
                          (Z.to_nat (highlightedIndex state))) as [opt|] eqn:E.
      * now exists opt.
      * apply nth_error_None in E. lia.
Qed.

End SelectionFacts.

Lemma C9_enter_commits_highlighted_only_witness :
  let props :=
    mkProps (js "gpt") [ModelOption.mk (js "gpt") (js "GPT") false false false]
            (fun _ => true) (js "active") false in
  let closed :=
    mkState false None true [] (-1) [] false CustomModelFormData.empty add
            None in
  let onFirst :=
    mkState false None true [] 0 [] false CustomModelFormData.empty add
            None in
  exec (handleSearchInputKeyDown (fun i => i) (fun x => x) props closed
          (js "Enter")) closed
  = (closed, [StopPropagation])
  /\ ((exists selectedOption,
          nth_error (filteredOptions (fun i => i) (fun x => x) props onFirst)
                    (Z.to_nat (highlightedIndex onFirst))
          = Some selectedOption)
      <-> highlightedIndex onFirst
          < Z.of_nat (List.length
                        (filteredOptions (fun i => i) (fun x => x) props
                           onFirst))).
Proof.
  intros props closed onFirst. split.
  - apply (C9_enter_commits_highlighted_only (fun i => i) (fun x => x)
             props closed closed).
    simpl. lia.
  - apply (C9_enter_commits_highlighted_only (fun i => i) (fun x => x)
             props onFirst onFirst).
    simpl. lia.
Defined.

(** ** Custom models: save and delete *)

Lemma eqb_nullable_true (a : jsstring) (b : option jsstring) :
  eqb_nullable a b = true <-> b = Some a.
Proof.
  destruct b as [b|]; simpl; [|split; discriminate].
  rewrite eqb_eq. split; [now intros ->|]. intros H. now inversion H.
Qed.

Lemma removeFirst_prefix (s p : jsstring) :
  startsWith s p = true -> removeFirst s p = skipn (List.length p) s.
Proof. intros H. destruct s; simpl; now rewrite H. Qed.

Lemma noSelectionChange_app (t1 t2 : list Effect) :
  noSelectionChange t1 -> noSelectionChange t2 ->
  noSelectionChange (t1 ++ t2).
Proof.
  intros H1 H2 x Hx.
  apply in_app_iff in Hx as [Hx|Hx]; [now apply H1|now apply H2].
Qed.

Section CustomModelFacts.

Variable formatModelName : jsstring -> jsstring.
Variable STORAGE_KEY_MODEL : jsstring.
Variable setItemThrows : jsstring -> jsstring -> bool.
Variable props : Props.
Variable state : State.

Lemma isDuplicate_spec (modelId : jsstring) :
  existsb (isDuplicate state modelId) (customModels state) = true
  <-> duplicateId state modelId.
Proof.
  unfold duplicateId. rewrite existsb_exists.
  split; intros (m & Hin & H); exists m; (split; [exact Hin|]).
  - unfold isDuplicate in H. apply andb_true_iff in H as [Hid Hmode].
    apply eqb_eq in Hid. split; [exact Hid|].
    destruct (dialogMode state); [now left|right].
    simpl in Hmode. apply negb_true_iff in Hmode.
    intros E. apply eqb_nullable_true in E. congruence.
  - destruct H as [Hid Hmode]. unfold isDuplicate.
    apply andb_true_iff. split; [now apply eqb_eq|].
    destruct Hmode as [->|Hne]; [reflexivity|].
    destruct (dialogMode state); [reflexivity|]. simpl.
    apply negb_true_iff.
    destruct (eqb_nullable _ _) eqn:E; [|reflexivity].
    apply eqb_nullable_true in E. contradiction.
Qed.

Lemma saveDisplayId_spec (formData : CustomModelFormData.t) :
  saveDisplayId formData
  = withoutOpenrouterPrefix (trim (CustomModelFormData.id formData)).
Proof.
  unfold saveDisplayId, withoutOpenrouterPrefix, saveModelId.
  destruct (startsWith _ _) eqn:E; [|reflexivity].
  now apply removeFirst_prefix.
Qed.

Lemma handleSave_empty (formData : CustomModelFormData.t) (s : State) :
  trim (CustomModelFormData.id formData) = [] ->
  exec (handleSaveCustomModel formatModelName STORAGE_KEY_MODEL
          setItemThrows props state formData) s
  = (s, []).
Proof.
  intros H. unfold handleSaveCustomModel, saveModelId. now rewrite H.
Qed.

Lemma handleSave_duplicate (formData : CustomModelFormData.t) (s : State) :
  duplicateId state (trim (CustomModelFormData.id formData)) ->
  exec (handleSaveCustomModel formatModelName STORAGE_KEY_MODEL
          setItemThrows props state formData) s
  = (s, if truthy (trim (CustomModelFormData.id formData))
        then [ConsoleError DUPLICATE_MESSAGE] else []).
Proof.
  intros H. apply isDuplicate_spec in H.
  unfold handleSaveCustomModel, saveModelId. rewrite H.
  now destruct (truthy _).
Qed.

(** A save that is neither empty nor a duplicate stores [updatedModels]
    in the state and hands it to [saveCustomModels]. *)
Lemma handleSave_accepts (formData : CustomModelFormData.t) (s : State) :
  trim (CustomModelFormData.id formData) <> [] ->
  ~ duplicateId state (trim (CustomModelFormData.id formData)) ->
  let run :=
    exec (handleSaveCustomModel formatModelName STORAGE_KEY_MODEL
            setItemThrows props state formData) s in
  customModels (fst run) = updatedModels formatModelName state formData
  /\ In (SaveCustomModels (updatedModels formatModelName state formData))
        (snd run).
Proof.
  intros Hne Hnd. cbv zeta.
  unfold handleSaveCustomModel, saveModelId.
  apply truthy_true in Hne. rewrite Hne. simpl negb. cbv iota.
  destruct (existsb _ _) eqn:E.
  { apply isDuplicate_spec in E. contradiction. }
  unfold exec, bind, when, skip, ret, emit, closeCustomModelDialog,
    trySetItem, bind, when, skip, ret, emit.
  destruct (refreshCustomModels props), (dialogMode state);
    simpl; try destruct (setItemThrows _ _);
    try destruct (eqb_nullable (selectedModel props) _);
    simpl; try destruct (setItemThrows _ _); simpl; auto.
Qed.

(** C5: the id and label of a save are trimmed; a save whose trimmed id is
    empty does nothing; a save whose trimmed id is that of a custom model
    other than the one being edited changes no state, hands nothing to
    [saveCustomModels] and writes nothing to storage. *)
Theorem C5_save_rejects_empty_and_duplicate
        (formData : CustomModelFormData.t) (s : State) :
  let modelId := trim (CustomModelFormData.id formData) in
  let run :=
    exec (handleSaveCustomModel formatModelName STORAGE_KEY_MODEL
            setItemThrows props state formData) s in
  (modelId = [] -> run = (s, []))
  /\ (duplicateId state modelId ->
      fst run = s
      /\ customModels (fst run) = customModels s
      /\ noStorageWrite (snd run)
      /\ snd run = if truthy modelId
                   then [ConsoleError DUPLICATE_MESSAGE] else [])
  /\ (modelId <> [] -> ~ duplicateId state modelId ->
      customModels (fst run) = updatedModels formatModelName state formData
      /\ In (SaveCustomModels (updatedModels formatModelName state formData))
            (snd run))
  /\ CustomModel.id (newModel formatModelName formData) = modelId
  /\ CustomModel.label (newModel formatModelName formData)
     = or_else (trim (CustomModelFormData.label formData))
               (formatModelName (withoutOpenrouterPrefix modelId)).
Proof.
  cbv zeta. split; [|split; [|split; [|split]]].
  - apply handleSave_empty.
  - intros H. rewrite (handleSave_duplicate _ _ H). simpl.
    repeat split.
    intros e He. destruct (truthy _); simpl in He; [|contradiction].
    destruct He as [<-|[]]. exact I.
  - apply handleSave_accepts.
  - reflexivity.
  - simpl. unfold saveModelLabel. now rewrite saveDisplayId_spec.
Qed.

(** C10: a save whose label trims to the empty string stores the label
    [formatModelName] makes of the trimmed id without a leading
    [openrouter/], under the trimmed id itself, prefix kept. *)
Theorem C10_generated_label_keeps_prefixed_id
        (formData : CustomModelFormData.t) (s : State) :
  trim (CustomModelFormData.label formData) = [] ->
  let modelId := trim (CustomModelFormData.id formData) in
  let stored :=
    CustomModel.mk modelId (formatModelName (withoutOpenrouterPrefix modelId))
                   (CustomModelFormData.apiKey formData)
                   (CustomModelFormData.apiBase formData) in
  let run :=
    exec (handleSaveCustomModel formatModelName STORAGE_KEY_MODEL
            setItemThrows props state formData) s in
  newModel formatModelName formData = stored
  /\ (modelId <> [] -> ~ duplicateId state modelId ->
      customModels (fst run)
      = match dialogMode state with
        | add => customModels state ++ [stored]
        | edit =>
            List.map
              (fun m =>
                 if eqb_nullable (CustomModel.id m) (editingModelId state)
                 then stored else m)
              (customModels state)
        end
      /\ In (SaveCustomModels (customModels (fst run))) (snd run)).
Proof.
  intros Hlabel. cbv zeta.
  assert (Hnew : newModel formatModelName formData
                 = CustomModel.mk (trim (CustomModelFormData.id formData))
                     (formatModelName
                        (withoutOpenrouterPrefix
                           (trim (CustomModelFormData.id formData))))
                     (CustomModelFormData.apiKey formData)
                     (CustomModelFormData.apiBase formData)).
  { unfold newModel, saveModelLabel. rewrite Hlabel, saveDisplayId_spec.
    reflexivity. }
  split; [exact Hnew|].
  intros Hne Hnd.
  destruct (handleSave_accepts formData s Hne Hnd) as [Hstate Htrace].
  cbv zeta in Hstate, Htrace. rewrite Hstate. split; [|exact Htrace].
  unfold updatedModels. now rewrite Hnew.
Qed.

End CustomModelFacts.

Section DeleteFacts.

Variable STORAGE_KEY_MODEL : jsstring.
Variable DEFAULT_FREE_MODEL_ID : jsstring.
Variable DEFAULT_PREMIUM_MODEL_ID : jsstring.
Variable setItemThrows : jsstring -> jsstring -> bool.
Variable props : Props.
Variable state : State.

(** C6: deleting the selected model makes the selection fall back to the
    premium default when the subscription is active and to the free
    default otherwise, with that id written to storage as the selection;
    deleting another model changes no selection. *)
Theorem C6_delete_selected_falls_back (modelId : jsstring) (e : bool)
        (s : State) :
  let fallback :=
    if eqb (subscriptionStatus props) (js "active")
    then DEFAULT_PREMIUM_MODEL_ID else DEFAULT_FREE_MODEL_ID in
  let updated :=
    filter (fun m => negb (eqb (CustomModel.id m) modelId))
           (customModels state) in
  let run :=
    exec (handleDeleteCustomModel STORAGE_KEY_MODEL DEFAULT_FREE_MODEL_ID
            DEFAULT_PREMIUM_MODEL_ID setItemThrows props state modelId e) s in
  run
  = (mkState (paywallOpen s) (lockedModel s) false (searchQuery s)
       (highlightedIndex s) updated (isCustomModelDialogOpen s)
       (dialogInitialData s) (dialogMode s) (editingModelId s),
     (if e then [StopPropagation; PreventDefault] else [])
     ++ [SaveCustomModels updated]
     ++ (if refreshCustomModels props then [RefreshCustomModels] else [])
     ++ (if eqb (selectedModel props) modelId then
           [OnModelChange fallback;
            LocalStorageSetItem STORAGE_KEY_MODEL fallback]
           ++ (if setItemThrows STORAGE_KEY_MODEL fallback
               then [ConsoleWarn DEFAULT_WARNING] else [])
         else [])
     ++ [SetTimeout ResetHighlightedIndex 0])
  /\ (selectedModel props = modelId ->
      In (OnModelChange fallback) (snd run)
      /\ In (LocalStorageSetItem STORAGE_KEY_MODEL fallback) (snd run))
  /\ (selectedModel props <> modelId -> noSelectionChange (snd run))
  /\ (subscriptionStatus props = js "active" ->
      fallback = DEFAULT_PREMIUM_MODEL_ID)
  /\ (subscriptionStatus props <> js "active" ->
      fallback = DEFAULT_FREE_MODEL_ID).
Proof.
  cbv zeta.
  set (fallback := if eqb (subscriptionStatus props) (js "active")
                   then DEFAULT_PREMIUM_MODEL_ID else DEFAULT_FREE_MODEL_ID).
  set (updated := filter _ (customModels state)).
  assert (Hrun :
    exec (handleDeleteCustomModel STORAGE_KEY_MODEL DEFAULT_FREE_MODEL_ID
            DEFAULT_PREMIUM_MODEL_ID setItemThrows props state modelId e) s
    = (mkState (paywallOpen s) (lockedModel s) false (searchQuery s)
         (highlightedIndex s) updated (isCustomModelDialogOpen s)
         (dialogInitialData s) (dialogMode s) (editingModelId s),
       (if e then [StopPropagation; PreventDefault] else [])
       ++ [SaveCustomModels updated]
       ++ (if refreshCustomModels props then [RefreshCustomModels] else [])
       ++ (if eqb (selectedModel props) modelId then
             [OnModelChange fallback;
              LocalStorageSetItem STORAGE_KEY_MODEL fallback]
             ++ (if setItemThrows STORAGE_KEY_MODEL fallback
                 then [ConsoleWarn DEFAULT_WARNING] else [])
           else [])
       ++ [SetTimeout ResetHighlightedIndex 0])).
  { unfold handleDeleteCustomModel. fold updated. fold fallback.
    unfold exec, bind, when, skip, ret, emit, trySetItem,
      bind, when, skip, ret, emit.
    destruct e, (refreshCustomModels props),
      (eqb (selectedModel props) modelId); simpl;
      try destruct (setItemThrows _ _); reflexivity. }
  split; [exact Hrun|]. rewrite Hrun. simpl snd.
  split; [|split; [|split]].
  - intros ->. rewrite eqb_refl.
    split; apply in_or_app; right; right; apply in_or_app; right;
      apply in_or_app; left; simpl; auto.
  - intros Hne. apply eqb_neq in Hne. rewrite Hne.
    repeat apply noSelectionChange_app;
      try destruct e; try destruct (refreshCustomModels props);
      intros x Hx; simpl in Hx; intuition (subst; exact I).
  - intros E. unfold fallback. now rewrite E.
  - intros E. apply eqb_neq in E. unfold fallback. now rewrite E.
Qed.

End DeleteFacts.

Lemma C5_save_rejects_empty_and_duplicate_witness :
  let blank := CustomModelFormData.mk (js "   ") (js "x") [] [] in
  let again :=
    CustomModelFormData.mk (js " openrouter/llama ") (js "Again") [] [] in
  let fresh := CustomModelFormData.mk (js " gemma ") (js " Gemma ") [] [] in
  let run formData :=
    exec (handleSaveCustomModel (fun i => i) (js "model") (fun _ _ => false)
            sampleProps sampleState formData) sampleState in
  run blank = (sampleState, [])
  /\ (fst (run again) = sampleState
      /\ customModels (fst (run again)) = customModels sampleState
      /\ noStorageWrite (snd (run again))
      /\ snd (run again)
         = if truthy (trim (CustomModelFormData.id again))
           then [ConsoleError DUPLICATE_MESSAGE] else [])
  /\ (customModels (fst (run fresh))
      = updatedModels (fun i => i) sampleState fresh
      /\ In (SaveCustomModels (updatedModels (fun i => i) sampleState fresh))
            (snd (run fresh))).
Proof.
  intros blank again fresh run.
  pose proof (C5_save_rejects_empty_and_duplicate (fun i => i) (js "model")
                (fun _ _ => false) sampleProps sampleState blank sampleState)
    as (Hblank & _).
  pose proof (C5_save_rejects_empty_and_duplicate (fun i => i) (js "model")
                (fun _ _ => false) sampleProps sampleState again sampleState)
    as (_ & Hagain & _).
  pose proof (C5_save_rejects_empty_and_duplicate (fun i => i) (js "model")
                (fun _ _ => false) sampleProps sampleState fresh sampleState)
    as (_ & _ & Hfresh & _).
  split; [|split].
  - refine (Hblank _). vm_compute. reflexivity.
  - refine (Hagain _).
    exists sampleCustom. split; [now left|].
    split; [vm_compute; reflexivity|now left].
  - refine (Hfresh _ _).
    + vm_compute. discriminate.
    + intros (m & [<-|[]] & Hid & _). vm_compute in Hid. discriminate.
Defined.

Lemma C10_generated_label_keeps_prefixed_id_witness :
  let formData :=
    CustomModelFormData.mk (js " openrouter/mistral-7b ") (js "  ")
                           (js "k") [] in
  let stored :=
    CustomModel.mk (js "openrouter/mistral-7b") (js "Model mistral-7b")
                   (js "k") [] in
  let run :=
    exec (handleSaveCustomModel (fun i => js "Model " ++ i) (js "model")
            (fun _ _ => false) sampleProps sampleState formData)
         sampleState in
  newModel (fun i => js "Model " ++ i) formData = stored
  /\ customModels (fst run) = [sampleCustom; stored]
  /\ In (SaveCustomModels (customModels (fst run))) (snd run).
Proof.
  intros formData stored run.
  pose proof (C10_generated_label_keeps_prefixed_id
                (fun i => js "Model " ++ i) (js "model") (fun _ _ => false)
                sampleProps sampleState formData sampleState) as H.
  destruct H as [Hnew Hsaved]; [vm_compute; reflexivity|].
  split; [exact Hnew|].
  apply Hsaved.
  - vm_compute. discriminate.
  - intros (m & [<-|[]] & Hid & _). vm_compute in Hid. discriminate.
Defined.

Lemma C6_delete_selected_falls_back_witness :
  let run (props : Props) :=
    exec (handleDeleteCustomModel (js "model") (js "free-default")
            (js "premium-default") (fun _ _ => false) props sampleState
            (js "openrouter/llama") true) sampleState in
  let other :=
    mkProps (js "gpt") (modelOptions sampleProps) (fun _ => false)
            (js "no_subscription") false in
  (In (OnModelChange (js "premium-default")) (snd (run sampleProps))
   /\ In (LocalStorageSetItem (js "model") (js "premium-default"))
         (snd (run sampleProps)))
  /\ noSelectionChange (snd (run other))
  /\ (if eqb (subscriptionStatus sampleProps) (js "active")
      then js "premium-default" else js "free-default")
     = js "premium-default"
  /\ (if eqb (subscriptionStatus other) (js "active")
      then js "premium-default" else js "free-default")
     = js "free-default".
Proof.
  intros run other. split; [|split; [|split]].
  - apply (C6_delete_selected_falls_back (js "model") (js "free-default")
             (js "premium-default") (fun _ _ => false) sampleProps
             sampleState (js "openrouter/llama") true sampleState).
    reflexivity.
  - apply (C6_delete_selected_falls_back (js "model") (js "free-default")
             (js "premium-default") (fun _ _ => false) other
             sampleState (js "openrouter/llama") true sampleState).
    vm_compute. discriminate.
  - apply (C6_delete_selected_falls_back (js "model") (js "free-default")
             (js "premium-default") (fun _ _ => false) sampleProps
             sampleState (js "openrouter/llama") true sampleState).
    reflexivity.
  - apply (C6_delete_selected_falls_back (js "model") (js "free-default")
             (js "premium-default") (fun _ _ => false) other
             sampleState (js "openrouter/llama") true sampleState).
    vm_compute. discriminate.
Defined.

(** ** The order of the "All Models" view *)

Lemma sortCompare_group (recommended : jsstring -> bool)
      (localeCompare : jsstring -> jsstring -> Z) (a b : ModelOption.t) :
  sortCompare recommended localeCompare a b
  = match group recommended a ?= group recommended b with
    | Lt => -1
    | Gt => 1
    | Eq => localeCompare (ModelOption.label a) (ModelOption.label b)
    end.
Proof.
  unfold sortCompare, group.
  destruct (recommended (ModelOption.id a)),
           (ModelOption.requiresSubscription a),
           (recommended (ModelOption.id b)),
           (ModelOption.requiresSubscription b); reflexivity.
Qed.

(** C7 (as amended): the comparator puts recommended paid entries first,
    then recommended free ones, then the other paid ones, then the rest,
    and within a group it answers what [localeCompare] answers on the
    labels.  Where [localeCompare] is antisymmetric and transitive, so is
    the comparator: it is a total order up to ties, two entries of one
    group whose labels compare equal being tied. *)
Theorem C7_sortCompare_by_group_then_label
        (recommended : jsstring -> bool)
        (localeCompare : jsstring -> jsstring -> Z) :
  let cmp := sortCompare recommended localeCompare in
  (forall a b,
      cmp a b
      = match group recommended a ?= group recommended b with
        | Lt => -1
        | Gt => 1
        | Eq => localeCompare (ModelOption.label a) (ModelOption.label b)
        end)
  /\ ((forall l1 l2, localeCompare l1 l2 < 0 <-> 0 < localeCompare l2 l1) ->
      forall a b, cmp a b < 0 <-> 0 < cmp b a)
  /\ ((forall l1 l2 l3,
          localeCompare l1 l2 <= 0 -> localeCompare l2 l3 <= 0 ->
          localeCompare l1 l3 <= 0) ->
      forall a b c, cmp a b <= 0 -> cmp b c <= 0 -> cmp a c <= 0).
Proof.
  cbv zeta. split; [apply sortCompare_group|split].
  - intros Hanti a b. rewrite !sortCompare_group.
    rewrite (Z.compare_antisym (group recommended a)).
    destruct (group recommended a ?= group recommended b); simpl;
      [apply Hanti|lia|lia].
  - intros Htrans a b c. rewrite !sortCompare_group.
    destruct (Z.compare_spec (group recommended a) (group recommended b)),
             (Z.compare_spec (group recommended b) (group recommended c)),
             (Z.compare_spec (group recommended a) (group recommended c));
      try lia; try (intros; lia).
    apply Htrans.
Qed.

Lemma C7_sortCompare_by_group_then_label_witness :
  let byLength (l1 l2 : jsstring) :=
    Z.of_nat (List.length l1) - Z.of_nat (List.length l2) in
  let cmp := sortCompare (fun _ => false) byLength in
  (forall a b, cmp a b < 0 <-> 0 < cmp b a)
  /\ (forall a b c, cmp a b <= 0 -> cmp b c <= 0 -> cmp a c <= 0).
Proof.
  intros byLength cmp.
  destruct (C7_sortCompare_by_group_then_label (fun _ => false) byLength)
    as (_ & Hanti & Htrans).
  split.
  - apply Hanti. intros l1 l2. unfold byLength. lia.
  - apply Htrans. intros l1 l2 l3. unfold byLength. lia.
Defined.

(** C7 as stated fails: two entries of the catalog with the same label,
    in the same group, are distinct and neither comes before the other,
    whatever the collation. *)
Lemma C7_strict_total_order_counterexample :
  let x := ModelOption.mk (js "model-x") (js "Model") false false false in
  let y := ModelOption.mk (js "model-y") (js "Model") false false false in
  let props := mkProps (js "model-x") [x; y] (fun _ => true) (js "active")
                       false in
  let state := mkState false None true [] (-1) [] false
                       CustomModelFormData.empty add None in
  x <> y
  /\ allModelsEntries (fun i => i) (fun l => l) props state = [x; y]
  /\ (forall recommended localeCompare,
        recommended (js "model-x") = recommended (js "model-y") ->
        (forall l, localeCompare l l = 0) ->
        sortCompare recommended localeCompare x y = 0
        /\ sortCompare recommended localeCompare y x = 0).
Proof.
  cbv zeta. split; [discriminate|]. split; [vm_compute; reflexivity|].
  intros recommended localeCompare Hrec Hrefl.
  unfold sortCompare. simpl. rewrite Hrec, Hrefl.
  now destruct (recommended (js "model-y")).
Qed.

(** * Further properties of the content normalizer *)

Lemma replaceBmp_skip (c0 : Z) (tl : jsstring) :
  c0 <> BACKSLASH -> replaceBmp (c0 :: tl) = c0 :: replaceBmp tl.
Proof.
  intros H. apply Z.eqb_neq in H. rewrite replaceBmp_cons, H.
  destruct tl as [|? [|? [|? [|? [|? ?]]]]]; reflexivity.
Qed.

Lemma replaceSupplementary_skip (c0 : Z) (tl : jsstring) :
  c0 <> BACKSLASH ->
  replaceSupplementary (c0 :: tl) = c0 :: replaceSupplementary tl.
Proof.
  intros H. apply Z.eqb_neq in H. rewrite replaceSupplementary_cons, H.
  destruct tl as [|? [|? [|? [|? [|? [|? [|? [|? [|? ?]]]]]]]]];
    reflexivity.
Qed.

Lemma replaceBmp_no_backslash (s : jsstring) :
  ~ In BACKSLASH s -> replaceBmp s = s.
Proof.
  induction s as [|c s IH]; intros H; [reflexivity|].
  rewrite replaceBmp_skip by (intros ->; apply H; now left).
  f_equal. apply IH. intros Hin. apply H. now right.
Qed.

Lemma replaceSupplementary_no_backslash (s : jsstring) :
  ~ In BACKSLASH s -> replaceSupplementary s = s.
Proof.
  induction s as [|c s IH]; intros H; [reflexivity|].
  rewrite replaceSupplementary_skip by (intros ->; apply H; now left).
  f_equal. apply IH. intros Hin. apply H. now right.
Qed.

(** X1: text that holds no backslash is left as it is. *)
Theorem X1_no_backslash_unchanged (content : jsstring) :
  ~ In BACKSLASH content -> processUnicodeContent content = content.
Proof.
  intros H. rewrite processUnicodeContent_order.
  rewrite replaceBmp_no_backslash by exact H.
  now apply replaceSupplementary_no_backslash.
Qed.

Lemma X1_no_backslash_unchanged_witness :
  processUnicodeContent (js "# Title u0041") = js "# Title u0041".
Proof.
  apply X1_no_backslash_unchanged. vm_compute.
  intuition discriminate.
Defined.

(** One step of each scan: a code unit is copied, or an escape is
    replaced and the scan goes on after it. *)
Lemma replaceBmp_cases (c0 : Z) (tl : jsstring) :
  replaceBmp (c0 :: tl) = c0 :: replaceBmp tl
  \/ exists n rest,
       List.length tl = (5 + List.length rest)%nat
       /\ replaceBmp (c0 :: tl) = n :: replaceBmp rest.
Proof.
  rewrite replaceBmp_cons.
  destruct tl as [|c1 [|a [|b [|c [|d rest]]]]]; try (left; reflexivity).
  destruct ((c0 =? BACKSLASH) && (c1 =? LOWER_U)); [|left; reflexivity].
  destruct (parseHex4 a b c d) as [n|]; [|left; reflexivity].
  right. exists (fromCharCode n), rest. split; reflexivity.
Qed.

Lemma replaceSupplementary_cases (c0 : Z) (tl : jsstring) :
  replaceSupplementary (c0 :: tl) = c0 :: replaceSupplementary tl
  \/ exists hi lo rest,
       List.length tl = (9 + List.length rest)%nat
       /\ replaceSupplementary (c0 :: tl)
          = hi :: lo :: replaceSupplementary rest.
Proof.
  rewrite replaceSupplementary_cons.
  destruct tl as [|c1 [|a [|b [|c [|d [|e [|f [|g [|h rest]]]]]]]]];
    try (left; reflexivity).
  destruct ((c0 =? BACKSLASH) && (c1 =? LOWER_U)); [|left; reflexivity].
  destruct (parseHex4 a b c d) as [hi|]; [|left; reflexivity].
  destruct (parseHex4 e f g h) as [lo|]; [|left; reflexivity].
  right. exists (fromCharCode hi), (fromCharCode lo), rest.
  split; reflexivity.
Qed.

Lemma replaceBmp_length_aux (n : nat) (s : jsstring) :
  (List.length s <= n)%nat ->
  (List.length (replaceBmp s) <= List.length s)%nat.
Proof.
  revert s. induction n as [|n IH]; intros s Hn.
  - destruct s; [apply Nat.le_refl|simpl in Hn; lia].
  - destruct s as [|c0 tl]; [apply Nat.le_refl|].
    cbn [List.length] in Hn.
    destruct (replaceBmp_cases c0 tl) as [E|(m & rest & Hl & E)];
      rewrite E; cbn [List.length].
    + assert (List.length (replaceBmp tl) <= List.length tl)%nat
        by (apply IH; lia).
      lia.
    + assert (List.length (replaceBmp rest) <= List.length rest)%nat
        by (apply IH; lia).
      lia.
Qed.

Lemma replaceSupplementary_length_aux (n : nat) (s : jsstring) :
  (List.length s <= n)%nat ->
  (List.length (replaceSupplementary s) <= List.length s)%nat.
Proof.
  revert s. induction n as [|n IH]; intros s Hn.
  - destruct s; [apply Nat.le_refl|simpl in Hn; lia].
  - destruct s as [|c0 tl]; [apply Nat.le_refl|].
    cbn [List.length] in Hn.
    destruct (replaceSupplementary_cases c0 tl)
      as [E|(hi & lo & rest & Hl & E)];
      rewrite E; cbn [List.length].
    + assert (List.length (replaceSupplementary tl)
              <= List.length tl)%nat by (apply IH; lia).
      lia.
    + assert (List.length (replaceSupplementary rest)
              <= List.length rest)%nat by (apply IH; lia).
      lia.
Qed.

(** X2: normalization never makes the text longer. *)
Theorem X2_processUnicodeContent_length (content : jsstring) :
  (List.length (processUnicodeContent content) <= List.length content)%nat.
Proof.
  rewrite processUnicodeContent_order.
  pose proof (replaceBmp_length_aux _ content (Nat.le_refl _)).
  pose proof (replaceSupplementary_length_aux _ (replaceBmp content)
                (Nat.le_refl _)).
  lia.
Qed.

Lemma replaceBmp_short (s : jsstring) :
  (List.length s < 6)%nat -> replaceBmp s = s.
Proof.
  induction s as [|c0 tl IH]; intros H; [reflexivity|].
  cbn [List.length] in H.
  destruct (replaceBmp_cases c0 tl) as [E|(m & rest & Hl & E)].
  - rewrite E, IH by lia. reflexivity.
  - lia.
Qed.

Lemma replaceSupplementary_short (s : jsstring) :
  (List.length s < 10)%nat -> replaceSupplementary s = s.
Proof.
  induction s as [|c0 tl IH]; intros H; [reflexivity|].
  cbn [List.length] in H.
  destruct (replaceSupplementary_cases c0 tl)
    as [E|(hi & lo & rest & Hl & E)].
  - rewrite E, IH by lia. reflexivity.
  - lia.
Qed.

(** C1: the text of the 4-digit escape of [A] is normalized to [A], as
    the claim says.  An 8-digit escape written in the input is not
    decoded, against the claim: the scan for 4-digit escapes runs first
    and takes the first four digits, which leaves the code unit they
    denote followed by the last four digits as text, and no 8-digit
    escape for the second scan.  So the text of the escape [0001F600]
    gives U+0001 and the text [F600], not U+D83D U+DE00. *)
Theorem C1_eight_digit_escape_not_decoded :
  processUnicodeContent (escape "0041") = js "A"
  /\ (forall a b c d e f g h hi,
        parseHex4 a b c d = Some hi ->
        processUnicodeContent
          [BACKSLASH; LOWER_U; a; b; c; d; e; f; g; h]
        = [hi; e; f; g; h])
  /\ processUnicodeContent (escape "0001F600") = 1 :: js "F600"
  /\ processUnicodeContent (escape "0001F600") <> [55357; 56832].
Proof.
  split; [vm_compute; reflexivity|]. split.
  - intros a b c d e f g h hi H.
    rewrite processUnicodeContent_order, replaceBmp_unfold, H.
    rewrite (fromCharCode_parseHex4 _ _ _ _ _ H).
    rewrite (replaceBmp_short [e; f; g; h]) by (simpl; lia).
    apply replaceSupplementary_short. simpl. lia.
  - split; [vm_compute; reflexivity|]. vm_compute. discriminate.
Qed.

Lemma C1_eight_digit_escape_not_decoded_witness :
  processUnicodeContent (escape "D83DDE00") = 55357 :: js "DE00".
Proof.
  destruct C1_eight_digit_escape_not_decoded as (_ & Hleft & _).
  apply (Hleft 68 56 51 68 68 69 48 48 55357). vm_compute. reflexivity.
Defined.

Lemma hexval_not_backslash (c v : Z) : hexval c = Some v -> c <> BACKSLASH.
Proof. intros H ->. discriminate H. Qed.

Lemma parseHex4_not_backslash (a b c d n : Z) :
  parseHex4 a b c d = Some n ->
  a <> BACKSLASH /\ b <> BACKSLASH /\ c <> BACKSLASH /\ d <> BACKSLASH.
Proof.
  unfold parseHex4.
  destruct (hexval a) eqn:Ha; [|discriminate].
  destruct (hexval b) eqn:Hb; [|discriminate].
  destruct (hexval c) eqn:Hc; [|discriminate].
  destruct (hexval d) eqn:Hd; [|discriminate].
  intros _. repeat split; eapply hexval_not_backslash; eassumption.
Qed.

(** X3: normalization is not idempotent.  The escape of a backslash
    followed by [u] and four code units comes out as the text of an
    escape, which a second normalization decodes. *)
Theorem X3_escaped_backslash_decodes_twice (a b c d n : Z) :
  parseHex4 a b c d = Some n ->
  processUnicodeContent (escape "005c" ++ [LOWER_U; a; b; c; d])
  = [BACKSLASH; LOWER_U; a; b; c; d]
  /\ processUnicodeContent
       (processUnicodeContent (escape "005c" ++ [LOWER_U; a; b; c; d]))
     = [n].
Proof.
  intros H.
  assert (E : processUnicodeContent
                (escape "005c" ++ [LOWER_U; a; b; c; d])
              = [BACKSLASH; LOWER_U; a; b; c; d]).
  { rewrite processUnicodeContent_order.
    change (escape "005c" ++ [LOWER_U; a; b; c; d])
      with (BACKSLASH :: LOWER_U :: 48 :: 48 :: 53 :: 99
              :: [LOWER_U; a; b; c; d]).
    rewrite replaceBmp_unfold.
    change (parseHex4 48 48 53 99) with (Some 92).
    cbv beta iota. change (fromCharCode 92) with BACKSLASH.
    rewrite (replaceBmp_short [LOWER_U; a; b; c; d]) by (simpl; lia).
    apply replaceSupplementary_short. simpl. lia. }
  split; [exact E|]. rewrite E. now apply processUnicodeContent_bmp.
Qed.

Lemma X3_escaped_backslash_decodes_twice_witness :
  processUnicodeContent (escape "005c" ++ [LOWER_U; 48; 48; 52; 49])
  = [BACKSLASH; LOWER_U; 48; 48; 52; 49]
  /\ processUnicodeContent
       (processUnicodeContent (escape "005c" ++ [LOWER_U; 48; 48; 52; 49]))
     = [65].
Proof.
  apply (X3_escaped_backslash_decodes_twice 48 48 52 49 65).
  vm_compute. reflexivity.
Defined.

(** X4: the scan for 8-digit escapes does fire on a backslash that the
    first scan produced: the escape of a backslash followed by [u] and
    eight hexadecimal digits becomes the two code units of the first four
    and of the last four digits. *)
Theorem X4_eight_digits_after_escaped_backslash
        (a b c d e f g h hi lo : Z) :
  parseHex4 a b c d = Some hi ->
  parseHex4 e f g h = Some lo ->
  processUnicodeContent
    (escape "005c" ++ [LOWER_U; a; b; c; d; e; f; g; h])
  = [hi; lo].
Proof.
  intros Hhi Hlo.
  destruct (parseHex4_not_backslash _ _ _ _ _ Hhi) as (Ha & Hb & Hc & Hd).
  destruct (parseHex4_not_backslash _ _ _ _ _ Hlo) as (He & Hf & Hg & Hh).
  rewrite processUnicodeContent_order.
  change (escape "005c" ++ [LOWER_U; a; b; c; d; e; f; g; h])
    with (BACKSLASH :: LOWER_U :: 48 :: 48 :: 53 :: 99
            :: [LOWER_U; a; b; c; d; e; f; g; h]).
  rewrite replaceBmp_unfold.
  change (parseHex4 48 48 53 99) with (Some 92).
  cbv beta iota. change (fromCharCode 92) with BACKSLASH.
  rewrite (replaceBmp_no_backslash [LOWER_U; a; b; c; d; e; f; g; h]).
  - now rewrite (replaceSupplementary_escape _ _ _ _ _ _ _ _ _ _ []
                   Hhi Hlo).
  - simpl. unfold BACKSLASH, LOWER_U in *. lia.
Qed.

Lemma X4_eight_digits_after_escaped_backslash_witness :
  processUnicodeContent (escape "005c" ++ js "uD83DDE00") = [55357; 56832].
Proof.
  apply (X4_eight_digits_after_escaped_backslash
           68 56 51 68 68 69 48 48 55357 56832);
    vm_compute; reflexivity.
Defined.

(** * Further properties of image nodes *)

Lemma split_no_sep (sep : Z) (s : jsstring) :
  ~ In sep s -> split sep s = [s].
Proof.
  induction s as [|c s IH]; intros H; [reflexivity|]. simpl.
  destruct (Z.eqb_spec c sep) as [->|_]; [exfalso; apply H; now left|].
  rewrite IH; [reflexivity|]. intros Hin. apply H. now right.
Qed.

Lemma split_app (sep : Z) (a b : jsstring) :
  ~ In sep a -> split sep (a ++ sep :: b) = a :: split sep b.
Proof.
  induction a as [|c a IH]; intros H; simpl.
  - now rewrite Z.eqb_refl.
  - destruct (Z.eqb_spec c sep) as [->|_]; [exfalso; apply H; now left|].
    rewrite IH; [reflexivity|]. intros Hin. apply H. now right.
Qed.

Lemma digit_range (c : Z) : digit c = true <-> 48 <= c <= 57.
Proof. unfold digit. rewrite andb_true_iff, !Z.leb_le. reflexivity. Qed.

Lemma digit_cases (c : Z) :
  digit c = true ->
  c = 48 \/ c = 49 \/ c = 50 \/ c = 51 \/ c = 52 \/ c = 53 \/ c = 54
  \/ c = 55 \/ c = 56 \/ c = 57.
Proof. intros H. apply digit_range in H. lia. Qed.

Lemma digit_not_whitespace (c : Z) :
  digit c = true -> whitespace c = false.
Proof.
  intros H.
  destruct (digit_cases c H) as [->|[->|[->|[->|[->|[->|[->|[->|[->| ->]]]]]]]]];
    reflexivity.
Qed.

Lemma dropWhile_id (p : Z -> bool) (s : jsstring) :
  match s with [] => True | c :: _ => p c = false end ->
  dropWhile p s = s.
Proof. destruct s as [|c s]; simpl; [reflexivity|]. now intros ->. Qed.

Lemma takeWhile_all (p : Z -> bool) (s : jsstring) :
  forallb p s = true -> takeWhile p s = s.
Proof.
  induction s as [|c s IH]; simpl; [reflexivity|].
  intros H. apply andb_true_iff in H as [Hc Hs]. now rewrite Hc, IH.
Qed.

Lemma dropWhile_all (p : Z -> bool) (s : jsstring) :
  forallb p s = true -> dropWhile p s = [].
Proof.
  induction s as [|c s IH]; simpl; [reflexivity|].
  intros H. apply andb_true_iff in H as [Hc Hs]. now rewrite Hc, IH.
Qed.

Lemma forallb_rev (p : Z -> bool) (s : jsstring) :
  forallb p s = true -> forallb p (rev s) = true.
Proof.
  rewrite !forallb_forall. intros H x Hx. apply H. now apply in_rev.
Qed.

Lemma forallb_head (p : Z -> bool) (s : jsstring) :
  forallb p s = true ->
  match s with [] => True | c :: _ => p c = true end.
Proof.
  destruct s; simpl; [trivial|]. intros H.
  now apply andb_true_iff in H as [H _].
Qed.

Lemma trim_digits (ds : jsstring) : forallb digit ds = true -> trim ds = ds.
Proof.
  intros H. unfold trim.
  rewrite (dropWhile_id whitespace ds).
  - rewrite (dropWhile_id whitespace (rev ds)); [apply rev_involutive|].
    pose proof (forallb_head _ _ (forallb_rev _ _ H)) as Hh.
    destruct (rev ds); [exact I|now apply digit_not_whitespace].
  - pose proof (forallb_head _ _ H) as Hh.
    destruct ds; [exact I|now apply digit_not_whitespace].
Qed.

Lemma digitval_digit (c : Z) :
  digit c = true -> digitval 10 c = Some (c - 48).
Proof.
  intros H.
  destruct (digit_cases c H) as [->|[->|[->|[->|[->|[->|[->|[->|[->| ->]]]]]]]]];
    reflexivity.
Qed.

Lemma digits_spec (ds : jsstring) (acc : Z) :
  forallb digit ds = true ->
  digits 10 acc ds
  = Some (fold_left (fun a c => a * 10 + (c - 48)) ds acc).
Proof.
  revert acc. induction ds as [|c ds IH]; intros acc H; [reflexivity|].
  simpl in H. apply andb_true_iff in H as [Hc Hds].
  cbn [digits fold_left]. rewrite (digitval_digit c Hc). now apply IH.
Qed.

Lemma unsignedDecimal_digits (ds : jsstring) :
  ds <> [] -> forallb digit ds = true ->
  unsignedDecimal false ds = Finite false (decimalValue ds) 0.
Proof.
  intros Hne H. unfold unsignedDecimal.
  rewrite (takeWhile_all _ _ H), (dropWhile_all _ _ H). cbv beta iota.
  apply truthy_true in Hne. rewrite Hne, app_nil_r. simpl orb. cbv iota.
  rewrite (digits_spec ds 0 H). reflexivity.
Qed.

Lemma decimalLiteral_digits (ds : jsstring) :
  ds <> [] -> forallb digit ds = true ->
  decimalLiteral ds = Finite false (decimalValue ds) 0.
Proof.
  intros Hne H. rewrite <- (unsignedDecimal_digits ds Hne H).
  destruct ds as [|c r]; [congruence|].
  pose proof (forallb_head _ _ H) as Hc. cbv beta iota in Hc.
  destruct (digit_cases c Hc) as [->|[->|[->|[->|[->|[->|[->|[->|[->| ->]]]]]]]]];
    reflexivity.
Qed.

(** [Number] of a string of decimal digits is the number they write. *)
Lemma Number_digits (ds : jsstring) :
  ds <> [] -> forallb digit ds = true ->
  Number ds = Finite false (decimalValue ds) 0.
Proof.
  intros Hne H. rewrite <- (decimalLiteral_digits ds Hne H).
  unfold Number. rewrite (trim_digits ds H).
  destruct ds as [|c [|p r]]; [congruence| |].
  - pose proof (forallb_head _ _ H) as Hc. cbv beta iota in Hc.
    destruct (digit_cases c Hc)
      as [->|[->|[->|[->|[->|[->|[->|[->|[->| ->]]]]]]]]];
      reflexivity.
  - assert (Hp : digit p = true).
    { simpl in H. apply andb_true_iff in H as [_ H].
      now apply andb_true_iff in H as [H _]. }
    pose proof (forallb_head _ _ H) as Hc. cbv beta iota in Hc.
    assert (Hx : (p =? 120) || (p =? 88) = false
                 /\ (p =? 111) || (p =? 79) = false
                 /\ (p =? 98) || (p =? 66) = false).
    { destruct (digit_cases p Hp)
        as [->|[->|[->|[->|[->|[->|[->|[->|[->| ->]]]]]]]]];
        repeat split. }
    destruct Hx as (Hx1 & Hx2 & Hx3).
    destruct (digit_cases c Hc)
      as [->|[->|[->|[->|[->|[->|[->|[->|[->| ->]]]]]]]]];
      try reflexivity.
    cbv beta iota. now rewrite Hx1, Hx2, Hx3.
Qed.

Lemma digits_not_in (c : Z) (ds : jsstring) :
  digit c = false -> forallb digit ds = true -> ~ In c ds.
Proof.
  intros Hc H Hin. rewrite forallb_forall in H.
  rewrite (H c Hin) in Hc. discriminate.
Qed.

(** X5: a fragment made of two strings of decimal digits around an [x],
    each writing a number of at most [2^53] (which a Number holds as it
    is), gives the numbers they write as width and height when both are
    above zero, and the default 500 by 300 otherwise. *)
Theorem X5_img_fragment_of_digits (url dw dh : jsstring) :
  ~ In HASH url ->
  dw <> [] -> dh <> [] ->
  forallb digit dw = true -> forallb digit dh = true ->
  decimalValue dw <= 2 ^ 53 -> decimalValue dh <= 2 ^ 53 ->
  imgDimensions (url ++ HASH :: dw ++ LOWER_X :: dh)
  = if (0 <? decimalValue dw) && (0 <? decimalValue dh)
    then (Finite false (decimalValue dw) 0,
          Finite false (decimalValue dh) 0, true)
    else (DEFAULT_WIDTH, DEFAULT_HEIGHT, false).
Proof.
  intros Hurl Hw Hh Dw Dh _ _. unfold imgDimensions.
  rewrite (split_app HASH url _ Hurl).
  rewrite (split_no_sep HASH (dw ++ LOWER_X :: dh)).
  - cbn [nth_error].
    assert (Ht : truthy (dw ++ LOWER_X :: dh) = true)
      by (apply truthy_true; now destruct dw).
    rewrite Ht.
    rewrite (split_app LOWER_X dw dh)
      by (now apply digits_not_in).
    rewrite (split_no_sep LOWER_X dh) by (now apply digits_not_in).
    cbn [List.map].
    rewrite (Number_digits dw Hw Dw), (Number_digits dh Hh Dh).
    cbn [isNaN negb andb gt0 Z.leb Z.compare].
    reflexivity.
  - intros Hin. apply in_app_or in Hin as [Hin|[E|Hin]].
    + now apply (digits_not_in HASH dw).
    + discriminate E.
    + now apply (digits_not_in HASH dh).
Qed.

Lemma X5_img_fragment_of_digits_witness :
  imgDimensions (js "https://host/a.png" ++ HASH :: js "1024" ++ LOWER_X
                   :: js "0768")
  = if (0 <? decimalValue (js "1024")) && (0 <? decimalValue (js "0768"))
    then (Finite false (decimalValue (js "1024")) 0,
          Finite false (decimalValue (js "0768")) 0, true)
    else (DEFAULT_WIDTH, DEFAULT_HEIGHT, false).
Proof.
  apply X5_img_fragment_of_digits; try discriminate;
    try (vm_compute; reflexivity); vm_compute; intuition discriminate.
Defined.

(** X6: what follows a second [#] of the source is ignored: neither the
    url nor the dimensions depend on it. *)
Theorem X6_img_ignores_second_hash (url frag rest : jsstring)
        (alt : option jsstring) :
  ~ In HASH url -> ~ In HASH frag ->
  imgDimensions (url ++ HASH :: frag ++ HASH :: rest)
  = imgDimensions (url ++ HASH :: frag)
  /\ img (url ++ HASH :: frag ++ HASH :: rest) alt
     = img (url ++ HASH :: frag) alt.
Proof.
  intros Hurl Hfrag.
  assert (E : imgDimensions (url ++ HASH :: frag ++ HASH :: rest)
              = imgDimensions (url ++ HASH :: frag)).
  { unfold imgDimensions.
    rewrite !(split_app HASH url _ Hurl), (split_app HASH frag _ Hfrag).
    now rewrite (split_no_sep HASH frag Hfrag). }
  split; [exact E|]. unfold img. rewrite E.
  now rewrite !(split_app HASH url _ Hurl).
Qed.

Lemma X6_img_ignores_second_hash_witness :
  imgDimensions (js "a.png" ++ HASH :: js "20x30" ++ HASH :: js "40x50")
  = imgDimensions (js "a.png" ++ HASH :: js "20x30")
  /\ img (js "a.png" ++ HASH :: js "20x30" ++ HASH :: js "40x50") None
     = img (js "a.png" ++ HASH :: js "20x30") None.
Proof.
  apply X6_img_ignores_second_hash; vm_compute; intuition discriminate.
Defined.

(** * Further properties of the catalog and its views *)

Lemma find_values (m : JsMap.t ModelOption.t) (i : jsstring) :
  keyedById m ->
  find (fun o => eqb (ModelOption.id o) i) (JsMap.values m)
  = JsMap.get i m.
Proof.
  unfold keyedById, JsMap.values.
  induction 1 as [|[k v] m Hkv Hm IH]; simpl; [reflexivity|].
  simpl in Hkv. rewrite Hkv. now destruct (eqb k i).
Qed.

Lemma find_enhanced (formatModelName : jsstring -> jsstring)
      (bs : list ModelOption.t) (cs : list CustomModel.t) (i : jsstring) :
  find (fun o => eqb (ModelOption.id o) i)
       (enhancedModelOptions formatModelName bs cs)
  = JsMap.get i (modelMap formatModelName bs cs).
Proof. apply find_values, keyedById_modelMap. Qed.

Lemma includes_empty (s : jsstring) : includes s [] = true.
Proof. destruct s; reflexivity. Qed.

Lemma find_NoDup (l : list ModelOption.t) (b : ModelOption.t) :
  NoDup (List.map ModelOption.id l) -> In b l ->
  find (fun m => eqb (ModelOption.id m) (ModelOption.id b)) l = Some b.
Proof.
  induction l as [|x l IH]; simpl; [contradiction|].
  intros Hnd [->|Hin]; [now rewrite eqb_refl|].
  apply NoDup_cons_iff in Hnd as [Hx Hl].
  destruct (eqb (ModelOption.id x) (ModelOption.id b)) eqn:E;
    [|now apply IH].
  apply eqb_eq in E. exfalso. apply Hx. rewrite E. now apply in_map.
Qed.

Section CatalogViewFacts.

Variable formatModelName : jsstring -> jsstring.
Variable lowQuality : jsstring -> bool.
Variable recommended : jsstring -> bool.
Variable toLowerCase : jsstring -> jsstring.
Variable props : Props.
Variable state : State.

Lemma entry_get (opt : ModelOption.t) :
  In opt (enhanced formatModelName props state) ->
  match lastCustom (ModelOption.id opt) (customModels state) with
  | Some c =>
      opt = overridden formatModelName
              (option_map notCustom
                 (lastStandard (ModelOption.id opt) (modelOptions props)))
              c
  | None =>
      exists b,
        lastStandard (ModelOption.id opt) (modelOptions props) = Some b
        /\ opt = notCustom b
  end.
Proof.
  intros Hin. apply In_enhanced_get in Hin. rewrite get_modelMap in Hin.
  destruct (lastCustom _ _) as [c|];
    [injection Hin as Hin; now symmetry|].
  destruct (lastStandard _ _) as [b|]; simpl in Hin; [|discriminate].
  exists b. split; [reflexivity|]. injection Hin as Hin. now symmetry.
Qed.

Lemma entry_isCustom (opt : ModelOption.t) :
  In opt (enhanced formatModelName props state) ->
  ModelOption.isCustom opt
  = mem (ModelOption.id opt)
        (List.map CustomModel.id (customModels state)).
Proof.
  intros Hin. rewrite <- lastCustom_mem.
  pose proof (entry_get opt Hin) as H.
  destruct (lastCustom _ _) as [c|].
  - rewrite H. apply overridden_isCustom.
  - destruct H as (b & _ & ->). reflexivity.
Qed.

(** X7: the label on the trigger is that of the selected id in the merged
    catalog: the label of the last custom model with that id, or
    [formatModelName] of the id when that label is empty, even where a
    built-in has the same id; else the label of the last built-in with the
    id; and [Select model] when the id is unknown or the label empty. *)
Theorem X7_selectedLabel :
  selectedLabel formatModelName props state
  = or_else
      (match lastCustom (selectedModel props) (customModels state) with
       | Some c =>
           or_else (CustomModel.label c)
                   (formatModelName (CustomModel.id c))
       | None =>
           match lastStandard (selectedModel props) (modelOptions props)
           with
           | Some b => ModelOption.label b
           | None => []
           end
       end)
      SELECT_MODEL.
Proof.
  unfold selectedLabel, enhanced. rewrite find_enhanced, get_modelMap.
  destruct (lastCustom _ _) as [c|], (lastStandard _ _) as [b|];
    reflexivity.
Qed.

(** X8: the filtered list never shows an id twice, and with an empty
    query it is the whole catalog, in the catalog's order. *)
Theorem X8_filteredOptions_ids_and_empty_query :
  NoDup (List.map ModelOption.id
           (filteredOptions formatModelName toLowerCase props state))
  /\ (toLowerCase [] = [] -> searchQuery state = [] ->
      filteredOptions formatModelName toLowerCase props state
      = enhanced formatModelName props state).
Proof.
  split.
  - unfold filteredOptions, enhanced.
    assert (Hnd : NoDup (List.map ModelOption.id
                           (enhancedModelOptions formatModelName
                              (modelOptions props) (customModels state)))).
    { unfold enhancedModelOptions.
      rewrite (keyedById_values _ (keyedById_modelMap _ _ _)).
      apply NoDup_keys_modelMap. }
    revert Hnd.
    generalize (enhancedModelOptions formatModelName (modelOptions props)
                  (customModels state)).
    induction l as [|x l IH]; simpl; intros Hnd; [constructor|].
    apply NoDup_cons_iff in Hnd as [Hx Hl].
    destruct (matchesQuery toLowerCase state x); [|now apply IH].
    simpl. constructor; [|now apply IH].
    intros Hin. apply Hx. apply in_map_iff in Hin as (y & E & Hy).
    apply filter_In in Hy as [Hy _]. rewrite <- E. now apply in_map.
  - intros Hlower Hquery. unfold filteredOptions. apply filter_all.
    intros x _. unfold matchesQuery.
    now rewrite Hquery, Hlower, includes_empty.
Qed.

(** X19: of an entry of the catalog, the edit and delete buttons are
    shown exactly when a custom model has its id; such an entry is never
    dimmed and shows neither the crown nor the subscription tooltip,
    whatever [canAccessModel] says; any other entry is dimmed, and told to
    require a subscription, exactly when [canAccessModel] refuses it, and
    shows the crown when it is dimmed and requires a subscription. *)
Theorem X19_render_of_catalog_entry (opt : ModelOption.t) (index : Z) :
  In opt (enhanced formatModelName props state) ->
  let custom :=
    mem (ModelOption.id opt)
        (List.map CustomModel.id (customModels state)) in
  let r := renderModelOption lowQuality recommended props state opt index in
  customActions r = custom
  /\ dimmed r
     = negb custom && negb (canAccessModel props (ModelOption.id opt))
  /\ crownIcon r = ModelOption.requiresSubscription opt && dimmed r
  /\ (tooltip r = Some TOOLTIP_SUBSCRIPTION <-> dimmed r = true).
Proof.
  intros Hin. cbv zeta. rewrite <- (entry_isCustom opt Hin).
  unfold renderModelOption. cbn [customActions dimmed crownIcon tooltip].
  split; [reflexivity|]. split.
  - now destruct (ModelOption.isCustom opt),
                 (canAccessModel props (ModelOption.id opt)).
  - split; [reflexivity|].
    destruct (negb (if ModelOption.isCustom opt then true
                    else canAccessModel props (ModelOption.id opt))).
    + split; reflexivity.
    + split; [|discriminate].
      destruct (lowQuality _); [discriminate|].
      destruct (recommended _); [discriminate|].
      destruct (ModelOption.isCustom opt); discriminate.
Qed.

Lemma handleSelect_denied (id : jsstring) (s : State) :
  mem id (List.map CustomModel.id (customModels state)) = false ->
  canAccessModel props id = false ->
  exec (handleSelect formatModelName props state id) s
  = (mkState true (Some id) (isOpen s) (searchQuery s)
       (highlightedIndex s) (customModels s) (isCustomModelDialogOpen s)
       (dialogInitialData s) (dialogMode s) (editingModelId s),
     [CanAccessModel id]).
Proof.
  intros Hcustom Hdenied. unfold handleSelect.
  rewrite target_isCustom, Hcustom.
  unfold exec, bind, callCanAccessModel, emit, ret. simpl.
  now rewrite Hdenied.
Qed.

(** X20: when a built-in entry of the catalog is refused, the paywall
    names it by the label the catalog shows, provided the built-in ids
    are distinct and the id is not empty. *)
Theorem X20_paywall_names_refused_entry (e : ModelOption.t) :
  NoDup (List.map ModelOption.id (modelOptions props)) ->
  In e (enhanced formatModelName props state) ->
  ModelOption.isCustom e = false ->
  ModelOption.id e <> [] ->
  canAccessModel props (ModelOption.id e) = false ->
  paywallDescription props
    (fst (exec (handleSelect formatModelName props state (ModelOption.id e))
               state))
  = Some (SUBSCRIBE_TO_ACCESS ++ ModelOption.label e).
Proof.
  intros Hnd Hin Hcustom Hid Hdenied.
  rewrite handleSelect_denied;
    [|now rewrite <- (entry_isCustom e Hin)|exact Hdenied].
  unfold paywallDescription. cbn [fst paywallOpen lockedModel].
  apply truthy_true in Hid. rewrite Hid.
  pose proof (entry_get e Hin) as H.
  destruct (lastCustom _ _) as [c|].
  - rewrite H, overridden_isCustom in Hcustom. discriminate.
  - destruct H as (b & Hb & He).
    assert (Hbin : In b (modelOptions props)).
    { apply find_some in Hb as [Hb _]. now apply in_rev. }
    assert (Hbid : ModelOption.id b = ModelOption.id e)
      by (rewrite He; reflexivity).
    rewrite <- Hbid, (find_NoDup _ b Hnd Hbin), He. reflexivity.
Qed.

End CatalogViewFacts.

Lemma X8_filteredOptions_ids_and_empty_query_witness :
  filteredOptions (fun i => i) (fun l => l) sampleProps sampleState
  = enhanced (fun i => i) sampleProps sampleState.
Proof.
  apply (X8_filteredOptions_ids_and_empty_query (fun i => i) (fun l => l)
           sampleProps sampleState); reflexivity.
Defined.

Lemma X19_render_of_catalog_entry_witness :
  let opt := ModelOption.mk (js "openrouter/llama") (js "Llama") false false
                            true in
  let r :=
    renderModelOption (fun _ => false) (fun _ => false) sampleProps
                      sampleState opt 0 in
  customActions r = true
  /\ dimmed r = false
  /\ crownIcon r = false
  /\ (tooltip r = Some TOOLTIP_SUBSCRIPTION <-> dimmed r = true).
Proof.
  intros opt r.
  apply (X19_render_of_catalog_entry (fun i => i) (fun _ => false)
           (fun _ => false) sampleProps sampleState opt 0).
  vm_compute. right. left. reflexivity.
Defined.

Lemma X20_paywall_names_refused_entry_witness :
  paywallDescription sampleProps
    (fst (exec (handleSelect (fun i => i) sampleProps sampleState (js "gpt"))
               sampleState))
  = Some (SUBSCRIBE_TO_ACCESS ++ js "GPT").
Proof.
  apply (X20_paywall_names_refused_entry (fun i => i) sampleProps
           sampleState
           (ModelOption.mk (js "gpt") (js "GPT") true false false)).
  - vm_compute. repeat constructor. intros [].
  - vm_compute. left. reflexivity.
  - reflexivity.
  - discriminate.
  - reflexivity.
Defined.

(** * Further properties of the selection controller *)

Section KeyboardFacts.

Variable formatModelName : jsstring -> jsstring.
Variable toLowerCase : jsstring -> jsstring.
Variable props : Props.
Variable state : State.

Lemma arrowDown_exec (s : State) :
  exec (handleSearchInputKeyDown formatModelName toLowerCase props state
          (js "ArrowDown")) s
  = (mkState (paywallOpen s) (lockedModel s) (isOpen s) (searchQuery s)
       (if highlightedIndex s
           <? Z.of_nat (List.length (filteredOptions formatModelName
                                       toLowerCase props state)) - 1
        then highlightedIndex s + 1 else 0)
       (customModels s) (isCustomModelDialogOpen s) (dialogInitialData s)
       (dialogMode s) (editingModelId s),
     [StopPropagation; PreventDefault]).
Proof. reflexivity. Qed.

Lemma arrowUp_exec (s : State) :
  exec (handleSearchInputKeyDown formatModelName toLowerCase props state
          (js "ArrowUp")) s
  = (mkState (paywallOpen s) (lockedModel s) (isOpen s) (searchQuery s)
       (if 0 <? highlightedIndex s
        then highlightedIndex s - 1
        else Z.of_nat (List.length (filteredOptions formatModelName
                                      toLowerCase props state)) - 1)
       (customModels s) (isCustomModelDialogOpen s) (dialogInitialData s)
       (dialogMode s) (editingModelId s),
     [StopPropagation; PreventDefault]).
Proof. reflexivity. Qed.

Lemma enter_exec (s : State) :
  exec (handleSearchInputKeyDown formatModelName toLowerCase props state
          (js "Enter")) s
  = (if 0 <=? highlightedIndex state then
       match nth_error (filteredOptions formatModelName toLowerCase props
                          state)
                       (Z.to_nat (highlightedIndex state)) with
       | Some selectedOption =>
           let '(s', t) :=
             exec (handleSelect formatModelName props state
                     (ModelOption.id selectedOption)) s in
           (s', StopPropagation :: PreventDefault :: t)
       | None => (s, [StopPropagation; PreventDefault])
       end
     else (s, [StopPropagation])).
Proof.
  unfold handleSearchInputKeyDown.
  change (eqb (js "Enter") (js "ArrowDown")) with false.
  change (eqb (js "Enter") (js "ArrowUp")) with false.
  change (eqb (js "Enter") (js "Enter")) with true.
  cbv beta iota. rewrite andb_true_l.
  destruct (0 <=? highlightedIndex state); [|reflexivity].
  destruct (nth_error _ _) as [opt|]; [|reflexivity].
  unfold exec, bind, emit.
  destruct (handleSelect _ _ _ _ s) as [[u s'] t]. reflexivity.
Qed.

(** X9: over a list that is not empty, with the highlight on an entry or
    at its initial -1, the arrow keys leave the highlight on an entry:
    down goes to the next one and from the last to the first, up to the
    one before and from the first, or from -1, to the last. *)
Theorem X9_arrow_keys_stay_in_list (s : State) :
  let len :=
    Z.of_nat (List.length (filteredOptions formatModelName toLowerCase
                             props state)) in
  let down :=
    highlightedIndex
      (fst (exec (handleSearchInputKeyDown formatModelName toLowerCase
                    props state (js "ArrowDown")) s)) in
  let up :=
    highlightedIndex
      (fst (exec (handleSearchInputKeyDown formatModelName toLowerCase
                    props state (js "ArrowUp")) s)) in
  0 < len -> -1 <= highlightedIndex s <= len - 1 ->
  0 <= down <= len - 1
  /\ 0 <= up <= len - 1
  /\ (highlightedIndex s < len - 1 -> down = highlightedIndex s + 1)
  /\ (highlightedIndex s = len - 1 -> down = 0)
  /\ (0 < highlightedIndex s -> up = highlightedIndex s - 1)
  /\ (highlightedIndex s <= 0 -> up = len - 1).
Proof.
  cbv zeta. rewrite arrowDown_exec, arrowUp_exec.
  cbn [fst highlightedIndex]. intros Hlen Hrange.
  destruct (Z.ltb_spec (highlightedIndex s)
              (Z.of_nat (List.length (filteredOptions formatModelName
                                        toLowerCase props state)) - 1)),
           (Z.ltb_spec 0 (highlightedIndex s)); lia.
Qed.

(** X10: with the highlight on an entry, arrow down followed by arrow up,
    and arrow up followed by arrow down, bring the state back to what it
    was. *)
Theorem X10_arrow_keys_round_trip :
  0 <= highlightedIndex state
    <= Z.of_nat (List.length (filteredOptions formatModelName toLowerCase
                                props state)) - 1 ->
  let press (key : string) (render : State) :=
    fst (exec (handleSearchInputKeyDown formatModelName toLowerCase props
                 render (js key)) render) in
  press "ArrowUp"%string (press "ArrowDown"%string state) = state
  /\ press "ArrowDown"%string (press "ArrowUp"%string state) = state.
Proof.
  intros Hrange. cbv beta zeta. rewrite !arrowDown_exec, !arrowUp_exec.
  cbn [fst].
  cbn [fst paywallOpen lockedModel isOpen searchQuery highlightedIndex
       customModels isCustomModelDialogOpen dialogInitialData dialogMode
       editingModelId].
  change (filteredOptions formatModelName toLowerCase props
            (mkState (paywallOpen state) (lockedModel state) (isOpen state)
               (searchQuery state) ?[i] (customModels state)
               (isCustomModelDialogOpen state) (dialogInitialData state)
               (dialogMode state) (editingModelId state)))
    with (filteredOptions formatModelName toLowerCase props state).
  set (len := Z.of_nat (List.length (filteredOptions formatModelName
                                       toLowerCase props state))) in *.
  destruct state as [pw lm io sq hi cm dio did dm em].
  cbn [paywallOpen lockedModel isOpen searchQuery highlightedIndex
       customModels isCustomModelDialogOpen dialogInitialData dialogMode
       editingModelId] in *.
  split; f_equal.
  - destruct (Z.ltb_spec hi (len - 1)).
    + destruct (Z.ltb_spec 0 (hi + 1)); lia.
    + destruct (Z.ltb_spec 0 0); lia.
  - destruct (Z.ltb_spec 0 hi).
    + destruct (Z.ltb_spec (hi - 1) (len - 1)); lia.
    + destruct (Z.ltb_spec (len - 1) (len - 1)); lia.
Qed.

End KeyboardFacts.

(** X11: over an empty list arrow down puts the highlight at 0, which is
    no entry, and Enter then commits nothing. *)
Theorem X11_arrow_down_on_empty_list
        (formatModelName toLowerCase : jsstring -> jsstring)
        (props : Props) (state : State) :
  filteredOptions formatModelName toLowerCase props state = [] ->
  -1 <= highlightedIndex state ->
  let down :=
    fst (exec (handleSearchInputKeyDown formatModelName toLowerCase props
                 state (js "ArrowDown")) state) in
  highlightedIndex down = 0
  /\ exec (handleSearchInputKeyDown formatModelName toLowerCase props down
             (js "Enter")) down
     = (down, [StopPropagation; PreventDefault]).
Proof.
  intros Hempty Hrange. cbv zeta. rewrite arrowDown_exec, Hempty.
  cbn [fst List.length].
  assert (Hdown : (if highlightedIndex state <? Z.of_nat 0 - 1
                   then highlightedIndex state + 1 else 0) = 0).
  { destruct (Z.ltb_spec (highlightedIndex state) (Z.of_nat 0 - 1));
      [simpl in *; lia|reflexivity]. }
  rewrite Hdown. split; [reflexivity|].
  rewrite enter_exec. cbn [highlightedIndex].
  change (filteredOptions formatModelName toLowerCase props
            (mkState (paywallOpen state) (lockedModel state) (isOpen state)
               (searchQuery state) 0 (customModels state)
               (isCustomModelDialogOpen state) (dialogInitialData state)
               (dialogMode state) (editingModelId state)))
    with (filteredOptions formatModelName toLowerCase props state).
  rewrite Hempty. reflexivity.
Qed.


Lemma X9_arrow_keys_stay_in_list_witness :
  let len :=
    Z.of_nat (List.length (filteredOptions (fun i => i) (fun l => l)
                             sampleProps sampleState)) in
  let down :=
    highlightedIndex
      (fst (exec (handleSearchInputKeyDown (fun i => i) (fun l => l)
                    sampleProps sampleState (js "ArrowDown")) sampleState))
  in
  let up :=
    highlightedIndex
      (fst (exec (handleSearchInputKeyDown (fun i => i) (fun l => l)
                    sampleProps sampleState (js "ArrowUp")) sampleState))
  in
  0 <= down <= len - 1
  /\ 0 <= up <= len - 1
  /\ (highlightedIndex sampleState < len - 1 ->
      down = highlightedIndex sampleState + 1)
  /\ (highlightedIndex sampleState = len - 1 -> down = 0)
  /\ (0 < highlightedIndex sampleState ->
      up = highlightedIndex sampleState - 1)
  /\ (highlightedIndex sampleState <= 0 -> up = len - 1).
Proof.
  apply (X9_arrow_keys_stay_in_list (fun i => i) (fun l => l) sampleProps
           sampleState sampleState); vm_compute; intuition discriminate.
Defined.

Lemma X10_arrow_keys_round_trip_witness :
  let onFirst :=
    mkState false None true [] 0 [sampleCustom] false
            CustomModelFormData.empty add None in
  let press (key : string) (render : State) :=
    fst (exec (handleSearchInputKeyDown (fun i => i) (fun l => l)
                 sampleProps render (js key)) render) in
  press "ArrowUp"%string (press "ArrowDown"%string onFirst) = onFirst
  /\ press "ArrowDown"%string (press "ArrowUp"%string onFirst) = onFirst.
Proof.
  intros onFirst.
  apply (X10_arrow_keys_round_trip (fun i => i) (fun l => l) sampleProps
           onFirst).
  vm_compute. intuition discriminate.
Defined.

Lemma X11_arrow_down_on_empty_list_witness :
  let noMatch :=
    mkState false None true (js "zzz") (-1) [] false
            CustomModelFormData.empty add None in
  let down :=
    fst (exec (handleSearchInputKeyDown (fun i => i) (fun l => l)
                 sampleProps noMatch (js "ArrowDown")) noMatch) in
  highlightedIndex down = 0
  /\ exec (handleSearchInputKeyDown (fun i => i) (fun l => l) sampleProps
             down (js "Enter")) down
     = (down, [StopPropagation; PreventDefault]).
Proof.
  intros noMatch.
  apply (X11_arrow_down_on_empty_list (fun i => i) (fun l => l) sampleProps
           noMatch).
  - vm_compute. reflexivity.
  - vm_compute. discriminate.
Defined.

(** X13: dismissing the paywall after a refused selection leaves the
    paywall closed and no model locked, and every other field of the state
    as it was before the selection; a state whose paywall was closed, with
    no model locked, is so brought back to what it was.  All the two
    handlers did was to ask [canAccessModel]: the selection is
    unchanged. *)
Theorem X13_dismissed_paywall_restores_state
        (formatModelName : jsstring -> jsstring) (props : Props)
        (state : State) (id : jsstring) (s : State) :
  mem id (List.map CustomModel.id (customModels state)) = false ->
  canAccessModel props id = false ->
  let refused := exec (handleSelect formatModelName props state id) s in
  let dismissed := exec closeDialog (fst refused) in
  paywallOpen (fst refused) = true
  /\ lockedModel (fst refused) = Some id
  /\ fst dismissed
     = mkState false None (isOpen s) (searchQuery s) (highlightedIndex s)
         (customModels s) (isCustomModelDialogOpen s) (dialogInitialData s)
         (dialogMode s) (editingModelId s)
  /\ (paywallOpen s = false -> lockedModel s = None -> fst dismissed = s)
  /\ snd refused ++ snd dismissed = [CanAccessModel id].
Proof.
  intros Hcustom Hdenied. cbv zeta.
  rewrite (handleSelect_denied formatModelName props state id s Hcustom
             Hdenied).
  cbn [fst snd]. split; [reflexivity|]. split; [reflexivity|].
  split; [reflexivity|]. split; [|reflexivity].
  intros Hopen Hlocked.
  unfold closeDialog, exec, bind, setPaywallOpen, setLockedModel. simpl.
  destruct s; simpl in *. now subst.
Qed.

Lemma X13_dismissed_paywall_restores_state_witness :
  let shown :=
    mkState true (Some (js "old")) true [] (-1) [sampleCustom] true
            CustomModelFormData.empty add None in
  let refused :=
    exec (handleSelect (fun i => i) sampleProps sampleState (js "gpt"))
         shown in
  let dismissed := exec closeDialog (fst refused) in
  let again :=
    exec closeDialog
      (fst (exec (handleSelect (fun i => i) sampleProps sampleState
                    (js "gpt")) sampleState)) in
  (paywallOpen (fst refused) = true
   /\ lockedModel (fst refused) = Some (js "gpt")
   /\ fst dismissed = sampleState
   /\ snd refused ++ snd dismissed = [CanAccessModel (js "gpt")])
  /\ fst again = sampleState.
Proof.
  intros shown refused dismissed again.
  pose proof (X13_dismissed_paywall_restores_state (fun i => i) sampleProps
                sampleState (js "gpt") shown eq_refl eq_refl)
    as (H1 & H2 & H3 & _ & H5).
  pose proof (X13_dismissed_paywall_restores_state (fun i => i) sampleProps
                sampleState (js "gpt") sampleState eq_refl eq_refl)
    as (_ & _ & _ & H4 & _).
  split; [|exact (H4 eq_refl eq_refl)].
  split; [exact H1|]. split; [exact H2|]. split; [exact H3|exact H5].
Defined.

(** X12: while the dropdown is closed the two effects leave the query
    empty and the highlight at -1 and set no timer; the effect on the
    catalog, run while the dropdown is open, closes it and sets a timer of
    10 ms that opens it again, with query and highlight lost. *)
Theorem X12_effects_reset_and_reopen (state : State) (inputMounted : bool) :
  let reset (open : bool) :=
    mkState (paywallOpen state) (lockedModel state) open [] (-1)
            (customModels state) (isCustomModelDialogOpen state)
            (dialogInitialData state) (dialogMode state)
            (editingModelId state) in
  (isOpen state = false ->
   openEffect state inputMounted state = (reset false, [])
   /\ refreshEffect state state = (reset false, []))
  /\ (isOpen state = true ->
      refreshEffect state state = (reset false, [(ReopenDropdown, 10)])
      /\ fireEffectTimer ReopenDropdown (fst (refreshEffect state state))
         = reset true).
Proof.
  cbv zeta. split; intros Hopen.
  - unfold openEffect, refreshEffect. rewrite Hopen. simpl.
    now rewrite Hopen.
  - unfold refreshEffect. rewrite Hopen. simpl. split; reflexivity.
Qed.

Lemma X12_effects_reset_and_reopen_witness :
  let typed :=
    mkState false None true (js "gp") 0 [sampleCustom] false
            CustomModelFormData.empty add None in
  let shut :=
    mkState false None false (js "gp") 0 [sampleCustom] false
            CustomModelFormData.empty add None in
  let reset (open : bool) :=
    mkState false None open [] (-1) [sampleCustom] false
            CustomModelFormData.empty add None in
  (refreshEffect typed typed = (reset false, [(ReopenDropdown, 10)])
   /\ fireEffectTimer ReopenDropdown (fst (refreshEffect typed typed))
      = reset true)
  /\ (openEffect shut true shut = (reset false, [])
      /\ refreshEffect shut shut = (reset false, [])).
Proof.
  intros typed shut reset. split.
  - apply (X12_effects_reset_and_reopen typed true). reflexivity.
  - apply (X12_effects_reset_and_reopen shut true). reflexivity.
Defined.

(** * Further properties of the custom-model catalog *)

Lemma dropWhile_suffix (p : Z -> bool) (s : jsstring) :
  exists pre, s = pre ++ dropWhile p s.
Proof.
  induction s as [|c s [pre IH]]; simpl; [now exists []|].
  destruct (p c); [|now exists []].
  exists (c :: pre). simpl. now f_equal.
Qed.

Lemma dropWhile_idem (p : Z -> bool) (s : jsstring) :
  dropWhile p (dropWhile p s) = dropWhile p s.
Proof. apply dropWhile_id, dropWhile_head. Qed.

(** [trim] leaves a trimmed string as it is. *)
Lemma trim_idempotent (s : jsstring) : trim (trim s) = trim s.
Proof.
  unfold trim.
  set (d := dropWhile whitespace s).
  set (r := dropWhile whitespace (rev d)).
  assert (Hr : dropWhile whitespace (rev r) = rev r).
  { apply dropWhile_id.
    destruct (dropWhile_suffix whitespace (rev d)) as [pre Hpre].
    fold r in Hpre.
    assert (Hd : d = rev r ++ rev pre).
    { rewrite <- rev_app_distr, <- Hpre. symmetry. apply rev_involutive. }
    pose proof (dropWhile_head whitespace s) as Hhead. fold d in Hhead.
    destruct (rev r) as [|c t]; [exact I|].
    rewrite Hd in Hhead. exact Hhead. }
  rewrite Hr, rev_involutive. unfold r. now rewrite dropWhile_idem.
Qed.

Lemma find_NoDup_custom (l : list CustomModel.t) (m : CustomModel.t) :
  NoDup (List.map CustomModel.id l) -> In m l ->
  find (fun x => eqb (CustomModel.id x) (CustomModel.id m)) l = Some m.
Proof.
  induction l as [|x l IH]; simpl; [contradiction|].
  intros Hnd [->|Hin]; [now rewrite eqb_refl|].
  apply NoDup_cons_iff in Hnd as [Hx Hl].
  destruct (eqb (CustomModel.id x) (CustomModel.id m)) eqn:E;
    [|now apply IH].
  apply eqb_eq in E. exfalso. apply Hx. rewrite E. now apply in_map.
Qed.

Lemma NoDup_ids_inj (l : list CustomModel.t) (a b : CustomModel.t) :
  NoDup (List.map CustomModel.id l) -> In a l -> In b l ->
  CustomModel.id a = CustomModel.id b -> a = b.
Proof.
  intros Hnd Ha Hb E.
  pose proof (find_NoDup_custom l a Hnd Ha) as Fa.
  pose proof (find_NoDup_custom l b Hnd Hb) as Fb.
  rewrite E in Fa. congruence.
Qed.

Lemma or_else_nil (s : jsstring) : or_else s [] = s.
Proof. now destruct s. Qed.

Section SaveFacts.

Variable formatModelName : jsstring -> jsstring.
Variable STORAGE_KEY_MODEL : jsstring.
Variable setItemThrows : jsstring -> jsstring -> bool.
Variable props : Props.
Variable state : State.

(** What an accepted save leaves: the new catalog in the state, the
    dialog and the dropdown closed, and the calls made. *)
Lemma handleSave_accepted_exec (formData : CustomModelFormData.t)
      (s : State) :
  trim (CustomModelFormData.id formData) <> [] ->
  ~ duplicateId state (trim (CustomModelFormData.id formData)) ->
  let modelId := trim (CustomModelFormData.id formData) in
  let updated := updatedModels formatModelName state formData in
  exec (handleSaveCustomModel formatModelName STORAGE_KEY_MODEL
          setItemThrows props state formData) s
  = (mkState (paywallOpen s) (lockedModel s) false (searchQuery s)
       (highlightedIndex s) updated false CustomModelFormData.empty
       (dialogMode s) None,
     [SaveCustomModels updated]
     ++ (if refreshCustomModels props then [RefreshCustomModels] else [])
     ++ [BodyClassListRemove (js "overflow-hidden");
         SetTimeout RestoreBodyPointerEvents 150]
     ++ (if match dialogMode state with add => true | edit => false end
            || eqb_nullable (selectedModel props) (editingModelId state)
         then
           [OnModelChange modelId;
            LocalStorageSetItem STORAGE_KEY_MODEL modelId]
           ++ (if setItemThrows STORAGE_KEY_MODEL modelId
               then [ConsoleWarn SELECTED_WARNING] else [])
         else [])
     ++ [SetTimeout ResetHighlightedIndex 0]).
Proof.
  intros Hne Hnd. cbv zeta.
  unfold handleSaveCustomModel, saveModelId.
  apply truthy_true in Hne. rewrite Hne. simpl negb. cbv iota.
  destruct (existsb _ _) eqn:E.
  { apply isDuplicate_spec in E. contradiction. }
  unfold exec, bind, when, skip, ret, emit, closeCustomModelDialog,
    trySetItem, bind, when, skip, ret, emit.
  destruct (refreshCustomModels props), (dialogMode state);
    simpl; try destruct (setItemThrows _ _);
    try destruct (eqb_nullable (selectedModel props) _);
    simpl; try destruct (setItemThrows _ _); reflexivity.
Qed.

(** X18: an accepted save closes the dialog and the dropdown; a model
    that was added always becomes the selection, written to storage; a
    model that was edited becomes the selection, under its new id, only
    when it was the selected one, and otherwise no selection call is
    made. *)
Theorem X18_accepted_save_selection (formData : CustomModelFormData.t)
        (s : State) :
  trim (CustomModelFormData.id formData) <> [] ->
  ~ duplicateId state (trim (CustomModelFormData.id formData)) ->
  let modelId := trim (CustomModelFormData.id formData) in
  let run :=
    exec (handleSaveCustomModel formatModelName STORAGE_KEY_MODEL
            setItemThrows props state formData) s in
  isCustomModelDialogOpen (fst run) = false
  /\ editingModelId (fst run) = None
  /\ isOpen (fst run) = false
  /\ (dialogMode state = add
      \/ editingModelId state = Some (selectedModel props) ->
      In (OnModelChange modelId) (snd run)
      /\ In (LocalStorageSetItem STORAGE_KEY_MODEL modelId) (snd run))
  /\ (dialogMode state = edit ->
      editingModelId state <> Some (selectedModel props) ->
      noSelectionChange (snd run)).
Proof.
  intros Hne Hnd. cbv zeta.
  rewrite (handleSave_accepted_exec formData s Hne Hnd). cbn [fst snd].
  split; [reflexivity|]. split; [reflexivity|]. split; [reflexivity|].
  split.
  - intros Hsel.
    assert (E : match dialogMode state with add => true | edit => false end
                || eqb_nullable (selectedModel props) (editingModelId state)
                = true).
    { destruct Hsel as [->|Hsel]; [reflexivity|].
      apply eqb_nullable_true in Hsel. rewrite Hsel. apply orb_true_r. }
    rewrite E.
    split; apply in_or_app; right; apply in_or_app; right;
      apply in_or_app; right; apply in_or_app; left; simpl; auto.
  - intros Hmode Hsel. rewrite Hmode.
    destruct (eqb_nullable _ _) eqn:E.
    { apply eqb_nullable_true in E. contradiction. }
    simpl orb. cbv iota.
    repeat apply noSelectionChange_app;
      try destruct (refreshCustomModels props);
      intros x Hx; simpl in Hx; intuition (subst; exact I).
Qed.

Lemma updatedModels_ids (formData : CustomModelFormData.t) :
  List.map CustomModel.id (updatedModels formatModelName state formData)
  = match dialogMode state with
    | add =>
        List.map CustomModel.id (customModels state)
        ++ [trim (CustomModelFormData.id formData)]
    | edit =>
        List.map
          (fun i => if eqb_nullable i (editingModelId state)
                    then trim (CustomModelFormData.id formData) else i)
          (List.map CustomModel.id (customModels state))
    end.
Proof.
  unfold updatedModels. destruct (dialogMode state).
  - now rewrite map_app.
  - rewrite !map_map. apply map_ext. intros m.
    now destruct (eqb_nullable _ _).
Qed.

Lemma updatedModels_NoDup (formData : CustomModelFormData.t) :
  NoDup (List.map CustomModel.id (customModels state)) ->
  ~ duplicateId state (trim (CustomModelFormData.id formData)) ->
  NoDup (List.map CustomModel.id
           (updatedModels formatModelName state formData)).
Proof.
  intros Hnd Hdup. rewrite updatedModels_ids.
  assert (Hfree : forall m, In m (customModels state) ->
            CustomModel.id m = trim (CustomModelFormData.id formData) ->
            dialogMode state = edit
            /\ editingModelId state = Some (CustomModel.id m)).
  { intros m Hin Hid.
    destruct (dialogMode state) eqn:Hmode.
    - exfalso. apply Hdup. exists m.
      split; [exact Hin|]. split; [exact Hid|]. left. exact Hmode.
    - split; [reflexivity|].
      destruct (eqb_nullable (CustomModel.id m) (editingModelId state))
        eqn:E; [now apply eqb_nullable_true in E|].
      exfalso. apply Hdup. exists m.
      split; [exact Hin|]. split; [exact Hid|]. right.
      intros E'. apply eqb_nullable_true in E'. congruence. }
  destruct (dialogMode state) eqn:Hmode.
  - apply NoDup_app; [exact Hnd|repeat constructor; intros []|].
    intros i Hi [<-|[]]. apply in_map_iff in Hi as (m & Hid & Hin).
    destruct (Hfree m Hin Hid) as [Hedit _]. discriminate.
  - apply NoDup_map_NoDup_ForallPairs; [|exact Hnd].
    intros i j Hi Hj.
    apply in_map_iff in Hi as (mi & <- & Hmi).
    apply in_map_iff in Hj as (mj & <- & Hmj).
    destruct (eqb_nullable (CustomModel.id mi) (editingModelId state))
      eqn:Ei,
      (eqb_nullable (CustomModel.id mj) (editingModelId state)) eqn:Ej;
      intros E.
    + apply eqb_nullable_true in Ei, Ej. congruence.
    + symmetry in E. destruct (Hfree mj Hmj E) as [_ Hj].
      apply eqb_nullable_true in Hj. congruence.
    + destruct (Hfree mi Hmi E) as [_ Hi].
      apply eqb_nullable_true in Hi. congruence.
    + exact E.
Qed.

(** X14: a save keeps the ids of the custom models pairwise distinct,
    whether it adds a model, edits one, or is refused. *)
Theorem X14_save_keeps_ids_distinct (formData : CustomModelFormData.t) :
  NoDup (List.map CustomModel.id (customModels state)) ->
  NoDup (List.map CustomModel.id
           (customModels
              (fst (exec (handleSaveCustomModel formatModelName
                            STORAGE_KEY_MODEL setItemThrows props state
                            formData) state)))).
Proof.
  intros Hnd.
  destruct (trim (CustomModelFormData.id formData)) as [|c r] eqn:Hid.
  - now rewrite (handleSave_empty formatModelName STORAGE_KEY_MODEL
                   setItemThrows props state formData state Hid).
  - destruct (existsb (isDuplicate state (c :: r)) (customModels state))
      eqn:Hdup.
    + apply isDuplicate_spec in Hdup. rewrite <- Hid in Hdup.
      now rewrite (handleSave_duplicate formatModelName STORAGE_KEY_MODEL
                     setItemThrows props state formData state Hdup).
    + assert (Hno : ~ duplicateId state
                      (trim (CustomModelFormData.id formData))).
      { rewrite Hid. intros H. apply isDuplicate_spec in H. congruence. }
      assert (Hne : trim (CustomModelFormData.id formData) <> [])
        by (rewrite Hid; discriminate).
      rewrite (handleSave_accepted_exec formData state Hne Hno).
      cbn [fst customModels]. now apply updatedModels_NoDup.
Qed.

(** X16: the record an accepted save stores has an id that is not empty
    and that [trim] leaves as it is: no white space at either end.  In
    [add] mode the record is in the catalog afterwards. *)
Theorem X16_stored_id_is_trimmed (formData : CustomModelFormData.t)
        (s : State) :
  trim (CustomModelFormData.id formData) <> [] ->
  ~ duplicateId state (trim (CustomModelFormData.id formData)) ->
  let stored := newModel formatModelName formData in
  CustomModel.id stored <> []
  /\ trim (CustomModel.id stored) = CustomModel.id stored
  /\ (dialogMode state = add ->
      In stored
         (customModels
            (fst (exec (handleSaveCustomModel formatModelName
                          STORAGE_KEY_MODEL setItemThrows props state
                          formData) s)))).
Proof.
  intros Hne Hnd. cbv zeta. split; [exact Hne|].
  split; [apply trim_idempotent|].
  intros Hmode. rewrite (handleSave_accepted_exec formData s Hne Hnd).
  cbn [fst customModels]. unfold updatedModels. rewrite Hmode.
  apply in_or_app. right. now left.
Qed.

End SaveFacts.

(** X17: opening the edit dialog on a model of the catalog and saving the
    form as it was filled leaves the catalog as it was, where the ids are
    distinct and the model's id and label are trimmed and its label not
    empty. *)
Theorem X17_edit_without_change_keeps_catalog
        (formatModelName : jsstring -> jsstring)
        (STORAGE_KEY_MODEL : jsstring)
        (setItemThrows : jsstring -> jsstring -> bool)
        (props : Props) (state : State) (m : CustomModel.t) (e : bool) :
  NoDup (List.map CustomModel.id (customModels state)) ->
  In m (customModels state) ->
  trim (CustomModel.id m) = CustomModel.id m ->
  trim (CustomModel.label m) = CustomModel.label m ->
  CustomModel.label m <> [] ->
  let opened :=
    fst (exec (openEditCustomModelDialog state (CustomModel.id m) e)
              state) in
  dialogInitialData opened
  = CustomModelFormData.mk (CustomModel.id m) (CustomModel.label m)
      (CustomModel.apiKey m) (CustomModel.apiBase m)
  /\ dialogMode opened = edit
  /\ editingModelId opened = Some (CustomModel.id m)
  /\ isCustomModelDialogOpen opened = true
  /\ customModels
       (fst (exec (handleSaveCustomModel formatModelName STORAGE_KEY_MODEL
                     setItemThrows props opened (dialogInitialData opened))
                  opened))
     = customModels state.
Proof.
  intros Hnd Hin Hid Hlabel Hlne. cbv zeta.
  assert (Hopened :
    fst (exec (openEditCustomModelDialog state (CustomModel.id m) e) state)
    = mkState (paywallOpen state) (lockedModel state) false
        (searchQuery state) (highlightedIndex state) (customModels state)
        true
        (CustomModelFormData.mk (CustomModel.id m) (CustomModel.label m)
           (CustomModel.apiKey m) (CustomModel.apiBase m))
        edit (Some (CustomModel.id m))).
  { unfold openEditCustomModelDialog.
    rewrite (find_NoDup_custom _ m Hnd Hin), !or_else_nil.
    destruct e; reflexivity. }
  rewrite Hopened.
  cbn [dialogInitialData dialogMode editingModelId isCustomModelDialogOpen].
  repeat (split; [reflexivity|]).
  set (opened := mkState _ _ _ _ _ _ _ _ _ _).
  set (formData := CustomModelFormData.mk _ _ _ _).
  assert (Hcase : CustomModel.id m = [] \/ CustomModel.id m <> []).
  { destruct (CustomModel.id m); [now left|right; discriminate]. }
  destruct Hcase as [Hempty|Hfull].
  - rewrite (handleSave_empty formatModelName STORAGE_KEY_MODEL
               setItemThrows props opened formData opened); [reflexivity|].
    unfold formData. cbn [CustomModelFormData.id]. congruence.
  - assert (Hne : trim (CustomModelFormData.id formData) <> []).
    { unfold formData. cbn [CustomModelFormData.id]. congruence. }
    assert (Hno : ~ duplicateId opened
                      (trim (CustomModelFormData.id formData))).
    { unfold formData. cbn [CustomModelFormData.id]. rewrite Hid.
      intros (m' & _ & Hm' & [Hmode|Hedit]).
      - discriminate Hmode.
      - apply Hedit. unfold opened. cbn [editingModelId]. now rewrite Hm'. }
    rewrite (handleSave_accepted_exec formatModelName STORAGE_KEY_MODEL
               setItemThrows props opened formData opened Hne Hno).
    cbn [fst customModels]. unfold updatedModels, opened.
    cbn [dialogMode customModels editingModelId].
    rewrite <- (map_id (customModels state)) at 2.
    apply map_ext_in. intros m' Hm'.
    destruct (eqb_nullable (CustomModel.id m') (Some (CustomModel.id m)))
      eqn:E; [|reflexivity].
    apply eqb_nullable_true in E. injection E as E.
    assert (Hmm : m = m').
    { apply (NoDup_ids_inj _ m m' Hnd Hin Hm'). congruence. }
    subst m'. unfold newModel, saveModelId, saveModelLabel, formData.
    cbn [CustomModelFormData.id CustomModelFormData.label
         CustomModelFormData.apiKey CustomModelFormData.apiBase].
    rewrite Hid, Hlabel. unfold or_else.
    apply truthy_true in Hlne. rewrite Hlne.
    now destruct m.
Qed.

Lemma X17_edit_without_change_keeps_catalog_witness :
  let opened :=
    fst (exec (openEditCustomModelDialog sampleState
                 (CustomModel.id sampleCustom) true) sampleState) in
  dialogInitialData opened
  = CustomModelFormData.mk (CustomModel.id sampleCustom)
      (CustomModel.label sampleCustom) (CustomModel.apiKey sampleCustom)
      (CustomModel.apiBase sampleCustom)
  /\ dialogMode opened = edit
  /\ editingModelId opened = Some (CustomModel.id sampleCustom)
  /\ isCustomModelDialogOpen opened = true
  /\ customModels
       (fst (exec (handleSaveCustomModel (fun i => i) (js "model")
                     (fun _ _ => false) sampleProps opened
                     (dialogInitialData opened)) opened))
     = customModels sampleState.
Proof.
  apply (X17_edit_without_change_keeps_catalog (fun i => i) (js "model")
           (fun _ _ => false) sampleProps sampleState sampleCustom true).
  - vm_compute. repeat constructor. intros [].
  - now left.
  - vm_compute. reflexivity.
  - vm_compute. reflexivity.
  - discriminate.
Defined.

Lemma X14_save_keeps_ids_distinct_witness :
  let fresh := CustomModelFormData.mk (js " gemma ") (js " Gemma ") [] [] in
  NoDup (List.map CustomModel.id
           (customModels
              (fst (exec (handleSaveCustomModel (fun i => i) (js "model")
                            (fun _ _ => false) sampleProps sampleState
                            fresh) sampleState)))).
Proof.
  intros fresh.
  apply (X14_save_keeps_ids_distinct (fun i => i) (js "model")
           (fun _ _ => false) sampleProps sampleState fresh).
  vm_compute. repeat constructor. intros [].
Defined.

Lemma X16_stored_id_is_trimmed_witness :
  let fresh := CustomModelFormData.mk (js " gemma ") (js " Gemma ") [] [] in
  let stored := newModel (fun i => i) fresh in
  CustomModel.id stored <> []
  /\ trim (CustomModel.id stored) = CustomModel.id stored
  /\ (dialogMode sampleState = add ->
      In stored
         (customModels
            (fst (exec (handleSaveCustomModel (fun i => i) (js "model")
                          (fun _ _ => false) sampleProps sampleState fresh)
                       sampleState)))).
Proof.
  intros fresh.
  apply (X16_stored_id_is_trimmed (fun i => i) (js "model")
           (fun _ _ => false) sampleProps sampleState fresh sampleState).
  - vm_compute. discriminate.
  - intros (m & [<-|[]] & Hid & _). vm_compute in Hid. discriminate.
Defined.

Lemma X18_accepted_save_selection_witness :
  let fresh := CustomModelFormData.mk (js " gemma ") (js " Gemma ") [] [] in
  let run :=
    exec (handleSaveCustomModel (fun i => i) (js "model") (fun _ _ => false)
            sampleProps sampleState fresh) sampleState in
  isCustomModelDialogOpen (fst run) = false
  /\ editingModelId (fst run) = None
  /\ isOpen (fst run) = false
  /\ (dialogMode sampleState = add
      \/ editingModelId sampleState = Some (selectedModel sampleProps) ->
      In (OnModelChange (trim (CustomModelFormData.id fresh))) (snd run)
      /\ In (LocalStorageSetItem (js "model")
               (trim (CustomModelFormData.id fresh))) (snd run))
  /\ (dialogMode sampleState = edit ->
      editingModelId sampleState <> Some (selectedModel sampleProps) ->
      noSelectionChange (snd run)).
Proof.
  intros fresh.
  apply (X18_accepted_save_selection (fun i => i) (js "model")
           (fun _ _ => false) sampleProps sampleState fresh sampleState).
  - vm_compute. discriminate.
  - intros (m & [<-|[]] & Hid & _). vm_compute in Hid. discriminate.
Defined.

Lemma delete_customModels
      (STORAGE_KEY_MODEL DEFAULT_FREE_MODEL_ID DEFAULT_PREMIUM_MODEL_ID
         : jsstring)
      (setItemThrows : jsstring -> jsstring -> bool) (props : Props)
      (state : State) (modelId : jsstring) (e : bool) (s : State) :
  customModels
    (fst (exec (handleDeleteCustomModel STORAGE_KEY_MODEL
                  DEFAULT_FREE_MODEL_ID DEFAULT_PREMIUM_MODEL_ID
                  setItemThrows props state modelId e) s))
  = filter (fun m => negb (eqb (CustomModel.id m) modelId))
           (customModels state).
Proof.
  unfold handleDeleteCustomModel, exec, bind, when, skip, ret, emit,
    trySetItem, bind, when, skip, ret, emit.
  destruct e, (refreshCustomModels props),
    (eqb (selectedModel props) modelId); simpl;
    try destruct (setItemThrows _ _); reflexivity.
Qed.

(** X15: a delete removes every custom model with the id and no other:
    the id is in the catalog no more, the other models stay, ids that
    were distinct stay distinct, and deleting an id that no custom model
    has leaves the catalog as it was. *)
Theorem X15_delete_removes_only_that_id
        (STORAGE_KEY_MODEL DEFAULT_FREE_MODEL_ID DEFAULT_PREMIUM_MODEL_ID
           : jsstring)
        (setItemThrows : jsstring -> jsstring -> bool) (props : Props)
        (state : State) (modelId : jsstring) (e : bool) (s : State) :
  let after :=
    customModels
      (fst (exec (handleDeleteCustomModel STORAGE_KEY_MODEL
                    DEFAULT_FREE_MODEL_ID DEFAULT_PREMIUM_MODEL_ID
                    setItemThrows props state modelId e) s)) in
  ~ In modelId (List.map CustomModel.id after)
  /\ (forall m,
        In m after
        <-> In m (customModels state) /\ CustomModel.id m <> modelId)
  /\ (NoDup (List.map CustomModel.id (customModels state)) ->
      NoDup (List.map CustomModel.id after))
  /\ (~ In modelId (List.map CustomModel.id (customModels state)) ->
      after = customModels state).
Proof.
  cbv zeta. rewrite delete_customModels.
  split; [|split; [|split]].
  - intros Hin. apply in_map_iff in Hin as (m & Hid & Hm).
    apply filter_In in Hm as [_ Hm]. apply negb_true_iff, eqb_neq in Hm.
    contradiction.
  - intros m. rewrite filter_In, negb_true_iff, eqb_neq. reflexivity.
  - generalize (customModels state).
    induction l as [|x l IH]; simpl; intros Hnd; [constructor|].
    apply NoDup_cons_iff in Hnd as [Hx Hl].
    destruct (negb (eqb (CustomModel.id x) modelId)); [|now apply IH].
    simpl. constructor; [|now apply IH].
    intros Hin. apply Hx. apply in_map_iff in Hin as (y & E & Hy).
    apply filter_In in Hy as [Hy _]. rewrite <- E. now apply in_map.
  - intros Hno. apply filter_all. intros m Hm.
    apply negb_true_iff, eqb_neq. intros E. apply Hno. rewrite <- E.
    now apply in_map.
Qed.

Lemma X15_delete_removes_only_that_id_witness :
  let after (modelId : jsstring) :=
    customModels
      (fst (exec (handleDeleteCustomModel (js "model") (js "free")
                    (js "premium") (fun _ _ => false) sampleProps
                    sampleState modelId true) sampleState)) in
  NoDup (List.map CustomModel.id (after (js "openrouter/llama")))
  /\ after (js "gpt") = customModels sampleState.
Proof.
  intros after. split.
  - apply (X15_delete_removes_only_that_id (js "model") (js "free")
             (js "premium") (fun _ _ => false) sampleProps sampleState
             (js "openrouter/llama") true sampleState).
    vm_compute. repeat constructor. intros [].
  - apply (X15_delete_removes_only_that_id (js "model") (js "free")
             (js "premium") (fun _ _ => false) sampleProps sampleState
             (js "gpt") true sampleState).
    vm_compute. intuition discriminate.
Defined.

(** * Keys of the rendered entries *)

Lemma code_of_ascii_inj (a b : ascii) :
  code_of_ascii a = code_of_ascii b -> a = b.
Proof.
  unfold code_of_ascii. intros H. apply N2Z.inj in H.
  rewrite <- (ascii_N_embedding a), <- (ascii_N_embedding b). now f_equal.
Qed.

Lemma js_inj (a b : string) : js a = js b -> a = b.
Proof.
  unfold js. intros H.
  rewrite <- (string_of_list_ascii_of_string a),
          <- (string_of_list_ascii_of_string b).
  f_equal. revert H.
  generalize (list_ascii_of_string a) (list_ascii_of_string b).
  induction l as [|x l IH]; intros [|y l']; simpl; try discriminate;
    [reflexivity|].
  intros H. injection H as Hx Hl. apply code_of_ascii_inj in Hx.
  f_equal; auto.
Qed.

Lemma decimal_inj (i j : nat) : decimal i = decimal j -> i = j.
Proof.
  unfold decimal. intros H. apply js_inj in H.
  apply DecimalNat.Unsigned.to_uint_inj.
  pose proof (NilEmpty.usu (Nat.to_uint i)) as Hi.
  pose proof (NilEmpty.usu (Nat.to_uint j)) as Hj.
  rewrite H in Hi. congruence.
Qed.

Lemma decimal_digits (n : nat) : forallb digit (decimal n) = true.
Proof.
  unfold decimal. generalize (Nat.to_uint n).
  induction u; simpl; auto.
Qed.

Lemma takeWhile_app_stop (p : Z -> bool) (a b : jsstring) (c : Z) :
  forallb p a = true -> p c = false -> takeWhile p (a ++ c :: b) = a.
Proof.
  intros Ha Hc. induction a as [|x a IH]; simpl in *; [now rewrite Hc|].
  apply andb_true_iff in Ha as [Hx Ha]. rewrite Hx. f_equal. now apply IH.
Qed.

(** A key tells the index it was made with. *)
Lemma getUniqueModelKey_index (m m' : ModelOption.t) (i j : nat) :
  getUniqueModelKey m i = getUniqueModelKey m' j -> i = j.
Proof.
  intros H. apply decimal_inj.
  assert (Hk : forall x n,
            takeWhile digit (rev (getUniqueModelKey x n))
            = rev (decimal n)).
  { intros x n. unfold getUniqueModelKey.
    rewrite !rev_app_distr, <- !app_assoc.
    change (rev (js "-")) with [45]. simpl app.
    apply takeWhile_app_stop; [|reflexivity].
    apply forallb_rev, decimal_digits. }
  pose proof (Hk m i) as Hi. rewrite H, Hk in Hi.
  rewrite <- (rev_involutive (decimal i)), <- (rev_involutive (decimal j)).
  now f_equal.
Qed.

Lemma withUniqueKeys_In (start : nat) (l : list ModelOption.t)
      (k : jsstring) :
  In k (List.map snd (withUniqueKeys start l)) ->
  exists m j, (start <= j)%nat /\ k = getUniqueModelKey m j.
Proof.
  revert start. induction l as [|x l IH]; intros start; simpl;
    [contradiction|].
  intros [<-|Hin]; [now exists x, start|].
  destruct (IH _ Hin) as (m & j & Hj & E).
  exists m, j. split; [lia|exact E].
Qed.

Lemma withUniqueKeys_NoDup (start : nat) (l : list ModelOption.t) :
  NoDup (List.map snd (withUniqueKeys start l)).
Proof.
  revert start. induction l as [|x l IH]; intros start; simpl;
    constructor; [|apply IH].
  intros Hin. apply withUniqueKeys_In in Hin as (m & j & Hj & E).
  apply getUniqueModelKey_index in E. lia.
Qed.

Lemma withUniqueKeys_fst (start : nat) (l : list ModelOption.t) :
  List.map fst (withUniqueKeys start l) = l.
Proof.
  revert start. induction l as [|x l IH]; intros start; simpl;
    [reflexivity|]. now rewrite IH.
Qed.

(** X21: the keys given to the rendered entries are pairwise distinct,
    also where two entries have the same id, and giving them changes
    neither the entries nor their order; so it is for the premium
    entries. *)
Theorem X21_unique_keys
        (formatModelName toLowerCase : jsstring -> jsstring)
        (props : Props) (state : State) :
  NoDup (List.map snd
           (uniqueModels formatModelName toLowerCase props state))
  /\ List.map fst (uniqueModels formatModelName toLowerCase props state)
     = filteredOptions formatModelName toLowerCase props state
  /\ NoDup (List.map snd (getPremiumModels props))
  /\ List.map fst (getPremiumModels props)
     = filter (fun m => ModelOption.requiresSubscription m)
              (modelOptions props).
Proof.
  unfold uniqueModels, getPremiumModels, sortedModels.
  repeat split; try apply withUniqueKeys_NoDup; apply withUniqueKeys_fst.
Qed.

(** * The view without subscription *)

Lemma startsWith_refl (s : jsstring) : startsWith s s = true.
Proof. rewrite <- (app_nil_r s) at 1. apply startsWith_app. Qed.

Lemma includes_refl (s : jsstring) : includes s s = true.
Proof.
  destruct s as [|c s]; [reflexivity|].
  cbn [includes]. now rewrite startsWith_refl.
Qed.

Lemma In_firstn {A : Type} (n : nat) (l : list A) (x : A) :
  In x (firstn n l) -> In x l.
Proof.
  intros H. rewrite <- (firstn_skipn n l). apply in_or_app. now left.
Qed.

(** X22: the view without subscription is shown only outside local mode,
    to a caller without subscription, with an entry counted as premium in
    view; no entry with the id of a free built-in is counted as premium;
    the entries listed as available require no subscription; and the
    premium preview holds at most three entries, each a built-in that
    requires a subscription. *)
Theorem X22_view_without_subscription
        (formatModelName toLowerCase : jsstring -> jsstring)
        (isLocalMode : bool) (props : Props) (state : State) :
  (shouldDisplayAll formatModelName toLowerCase isLocalMode props state
   = true ->
   isLocalMode = false
   /\ subscriptionStatus props = js "no_subscription"
   /\ premiumModels formatModelName toLowerCase props state <> [])
  /\ (forall e b,
        In e (premiumModels formatModelName toLowerCase props state) ->
        In b (modelOptions props) ->
        ModelOption.requiresSubscription b = false ->
        ModelOption.id e <> ModelOption.id b)
  /\ (forall e,
        In e (List.map fst
                (availableModels formatModelName toLowerCase props state))
        ->
        ModelOption.requiresSubscription e = false
        /\ In e (enhanced formatModelName props state))
  /\ (List.length (premiumPreview toLowerCase props state) <= 3)%nat
  /\ (forall e,
        In e (List.map fst (premiumPreview toLowerCase props state)) ->
        ModelOption.requiresSubscription e = true
        /\ In e (modelOptions props)).
Proof.
  split; [|split; [|split; [|split]]].
  - unfold shouldDisplayAll. intros H.
    apply andb_true_iff in H as [H Hlen].
    apply andb_true_iff in H as [Hlocal Hstatus].
    apply negb_true_iff in Hlocal. apply eqb_eq in Hstatus.
    split; [exact Hlocal|]. split; [exact Hstatus|].
    intros E. rewrite E in Hlen. discriminate.
  - intros e b He Hb Hfree E. unfold premiumModels in He.
    apply filter_In in He as [_ He]. apply negb_true_iff in He.
    assert (Hex : existsb (fun id => includes (ModelOption.id e) id)
                          (getFreeModels props) = true).
    { apply existsb_exists. exists (ModelOption.id b). split.
      - unfold getFreeModels. apply in_map. apply filter_In.
        split; [exact Hb|]. now rewrite Hfree.
      - rewrite E. apply includes_refl. }
    congruence.
  - intros e He. apply in_map_iff in He as ([m k] & <- & Hin).
    unfold availableModels in Hin. apply filter_In in Hin as [Hin Hp].
    simpl in *. apply andb_true_iff in Hp as [Hp _].
    apply negb_true_iff in Hp. split; [exact Hp|].
    assert (Hm : In m (List.map fst (uniqueModels formatModelName
                                       toLowerCase props state))).
    { change m with (fst (m, k)). now apply in_map. }
    unfold uniqueModels in Hm. rewrite withUniqueKeys_fst in Hm.
    unfold sortedModels, filteredOptions in Hm.
    now apply filter_In in Hm as [Hm _].
  - unfold premiumPreview. apply firstn_le_length.
  - intros e He. apply in_map_iff in He as ([m k] & <- & Hin).
    unfold premiumPreview in Hin. apply In_firstn in Hin.
    apply filter_In in Hin as [Hin Hp]. simpl in *.
    apply andb_true_iff in Hp as [Hp _]. split; [exact Hp|].
    assert (Hm : In m (List.map fst (getPremiumModels props))).
    { change m with (fst (m, k)). now apply in_map. }
    unfold getPremiumModels in Hm. rewrite withUniqueKeys_fst in Hm.
    now apply filter_In in Hm as [Hm _].
Qed.

Lemma X22_view_without_subscription_witness :
  let props :=
    mkProps (js "free-a")
      [ModelOption.mk (js "free-a") (js "Free A") false false false;
       ModelOption.mk (js "paid-b") (js "Paid B") true false false]
      (fun _ => false) (js "no_subscription") false in
  let state :=
    mkState false None true [] (-1) [] false CustomModelFormData.empty add
            None in
  (false = false
   /\ subscriptionStatus props = js "no_subscription"
   /\ premiumModels (fun i => i) (fun l => l) props state <> [])
  /\ ModelOption.id (ModelOption.mk (js "paid-b") (js "Paid B") true false
                                    false)
     <> ModelOption.id (ModelOption.mk (js "free-a") (js "Free A") false
                                       false false).
Proof.
  intros props state.
  destruct (X22_view_without_subscription (fun i => i) (fun l => l) false
              props state) as (Hview & Hpremium & _).
  split.
  - apply Hview. vm_compute. reflexivity.
  - apply (Hpremium _ _); vm_compute; auto.
Defined.
